(** * soilws: pump control server (src/server.js)

    A shallow embedding of the WebSocket / REST pump control server and the
    properties of its area-scoped synchronisation and auto-control logic.

    Modelling conventions.
    - The two PostgreSQL tables are finite maps keyed by [area_name]
      (the column is UNIQUE in [pump_status]; [crop_settings] is only read
      through [WHERE area_name = $1] and [rows[0]]).  The surrogate key
      [id SERIAL] takes part in no decision of the server and is left out.
    - [pool.query] may reject: the world carries a schedule [faults] with one
      entry per future query ([true] = this query throws).  An exhausted
      schedule means the store answers.
    - [NOW()] and [new Date()] read the world's [clock].
    - A [ws] object is a natural number (its identity); its [readyState] and
      the [areaName] captured by the closures of its handlers live in
      [sockets].
    - Handlers run to completion one after the other: [broadcastPumpStatus],
      which the source calls without [await], is run at its call site.
      For the status query of a connection, also called without [await], a
      second transition system ([astep]) keeps the query in flight until
      the store answers.
    - Inbound JSON has been decoded: [status] is a boolean, [mode] and the
      names are strings, moisture values are integers (percent).  Fields of a
      POST body may be absent ([undefined]). *)

From stdpp Require Import gmap strings list fin_maps.
From Stdlib Require Import ZArith Lia.

Open Scope Z_scope.

(* ------------------------------------------------------------------ *)
(** ** Data model *)

(** A row of [pump_status], without its key. *)
Record PumpRow := mkPumpRow {
  pump_id : string;
  status : bool;
  mode : string;
  last_updated : Z
}.

(** A row of [crop_settings], without its key. *)
Record CropRow := mkCropRow {
  crop_name : string;
  optimal_moisture : Z
}.

(** What the server keeps about a connected [ws]. *)
Record Socket := mkSocket {
  sock_area : option string;   (* [areaName] of the connection closure *)
  readyState : Z               (* 1 = OPEN, 3 = CLOSED *)
}.

(** Frames written with [ws.send(JSON.stringify(...))]. *)
Inductive Payload :=
| pump_status_update (area_name : option string) (row : PumpRow)
| optimal_moisture_error (message : string)
| optimal_moisture_success (crop : string) (optimal target : Z).

(** Decoded inbound frames, by their [type] field. *)
Inductive InMsg :=
| pump_control (area_name pump_id : string) (status : bool) (mode : string)
| soil_moisture_update (area_name : string) (soil_moisture : Z)
| request_optimal_moisture (area_name : string)
| unknown_frame.

(** Bodies of REST answers. *)
Inductive Body :=
| body_error (error : string)
| body_success (message : string)
| body_row (area_name : string) (row : PumpRow).

Record HttpResponse := mkResponse { code : Z; body : Body }.

(** [req.body] of the POST endpoint. *)
Record PostBody := mkPostBody {
  body_status : option bool;
  body_mode : option string
}.

(** The SQL statements the server issues. *)
Inductive Statement :=
| SelectCrop (area_name : string)
| SelectPump (area_name : option string)
| InsertPump (area_name : string)
| UpsertPump (area_name : string).

Definition is_write (s : Statement) : bool :=
  match s with
  | InsertPump _ | UpsertPump _ => true
  | SelectCrop _ | SelectPump _ => false
  end.

Record World := mkWorld {
  pump_status : gmap string PumpRow;
  crop_settings : gmap string CropRow;
  clients : gmap string nat;               (* [const clients = new Map()] *)
  sockets : gmap nat Socket;
  sent : list (nat * Payload);             (* frames, oldest first *)
  journal : list (Statement * bool);       (* statements and whether they ran *)
  clock : Z;
  faults : list bool
}.

Definition set_pump_status (t : gmap string PumpRow) (w : World) : World :=
  mkWorld t (crop_settings w) (clients w) (sockets w) (sent w) (journal w)
          (clock w) (faults w).
Definition set_clients (c : gmap string nat) (w : World) : World :=
  mkWorld (pump_status w) (crop_settings w) c (sockets w) (sent w) (journal w)
          (clock w) (faults w).
Definition set_sockets (s : gmap nat Socket) (w : World) : World :=
  mkWorld (pump_status w) (crop_settings w) (clients w) s (sent w) (journal w)
          (clock w) (faults w).
Definition set_sent (l : list (nat * Payload)) (w : World) : World :=
  mkWorld (pump_status w) (crop_settings w) (clients w) (sockets w) l (journal w)
          (clock w) (faults w).
Definition set_journal (j : list (Statement * bool)) (w : World) : World :=
  mkWorld (pump_status w) (crop_settings w) (clients w) (sockets w) (sent w) j
          (clock w) (faults w).
Definition set_clock (t : Z) (w : World) : World :=
  mkWorld (pump_status w) (crop_settings w) (clients w) (sockets w) (sent w)
          (journal w) t (faults w).
Definition set_faults (f : list bool) (w : World) : World :=
  mkWorld (pump_status w) (crop_settings w) (clients w) (sockets w) (sent w)
          (journal w) (clock w) f.

(** The write statements of a journal. *)
Definition writes (j : list (Statement * bool)) : list (Statement * bool) :=
  List.filter (λ e, is_write e.1) j.

(* ------------------------------------------------------------------ *)
(** ** Effects: state, and exceptions that keep the state *)

Module Js.

Definition M (A : Type) : Type := World → option A * World.

Definition ret {A} (x : A) : M A := λ w, (Some x, w).

Definition bind {A B} (m : M A) (k : A → M B) : M B :=
  λ w, match m w with
       | (Some x, w') => k x w'
       | (None, w') => (None, w')
       end.

(** [try { m } catch (err) { h }] *)
Definition try_catch {A} (m : M A) (h : M A) : M A :=
  λ w, match m w with
       | (Some x, w') => (Some x, w')
       | (None, w') => h w'
       end.

Definition exec {A} (m : M A) (w : World) : World := (m w).2.
Definition result {A} (m : M A) (w : World) : option A := (m w).1.

End Js.
Import Js.

Notation "x <~ m ; k" := (bind m (λ x, k))
  (at level 20, m at level 100, k at level 200, only parsing).

(* ------------------------------------------------------------------ *)
(** ** The store behind [pool.query] *)

Definition pop_fault (fs : list bool) : bool * list bool :=
  match fs with
  | [] => (false, [])
  | f :: fs' => (f, fs')
  end.

Definition log (s : Statement) (ok : bool) (w : World) : World :=
  set_journal (journal w ++ [(s, ok)]) w.

(** One call of [pool.query]: the schedule decides whether the store
    answers; [run] is the statement itself, which may be rejected too. *)
Definition pool_query {A} (s : Statement)
    (run : World → option (A * gmap string PumpRow)) : M A :=
  λ w,
    let w0 := set_faults (pop_fault (faults w)).2 w in
    if (pop_fault (faults w)).1 then (None, log s false w0)
    else match run w0 with
         | Some (x, t) => (Some x, log s true (set_pump_status t w0))
         | None => (None, log s false w0)
         end.

(** [SELECT * FROM crop_settings WHERE area_name = $1], then [rows[0]]. *)
Definition select_crop (a : string) : M (option CropRow) :=
  pool_query (SelectCrop a) (λ w, Some (crop_settings w !! a, pump_status w)).

(** [SELECT * FROM pump_status WHERE area_name = $1], then [rows[0]].
    An [undefined] parameter is sent as NULL, which no row equals. *)
Definition select_pump (a : option string) : M (option PumpRow) :=
  pool_query (SelectPump a)
    (λ w, Some (a ≫= (λ k, pump_status w !! k), pump_status w)).

(** [INSERT INTO pump_status (area_name, pump_id, status, mode) VALUES ...]:
    [last_updated] takes its default [NOW()]; a second row for the area
    violates UNIQUE. *)
Definition insert_pump (a p : string) (st : bool) (md : string) : M unit :=
  pool_query (InsertPump a)
    (λ w, match pump_status w !! a with
          | Some _ => None
          | None => Some (tt, <[a := mkPumpRow p st md (clock w)]> (pump_status w))
          end).

(** [INSERT ... VALUES ($1, $2, $3, $4, NOW()) ON CONFLICT (area_name)
    DO UPDATE SET status = $3, mode = $4, last_updated = NOW()]. *)
Definition upsert_pump (a p : string) (st : bool) (md : string) : M unit :=
  pool_query (UpsertPump a)
    (λ w, match pump_status w !! a with
          | Some r =>
              Some (tt, <[a := mkPumpRow (pump_id r) st md (clock w)]> (pump_status w))
          | None =>
              Some (tt, <[a := mkPumpRow p st md (clock w)]> (pump_status w))
          end).

(** [ws.send(...)] *)
Definition ws_send (ws : nat) (p : Payload) : M unit :=
  λ w, (Some tt, set_sent (sent w ++ [(ws, p)]) w).

(* ------------------------------------------------------------------ *)
(** ** Handlers *)

(** [`pump_${areaName}`] *)
Definition derived_pump_id (a : string) : string := "pump_" +:+ a.

(** [async function updatePumpStatus(areaName, pumpId, status, mode)] *)
Definition updatePumpStatus (areaName pumpId : string) (status : bool)
    (mode : string) : M bool :=
  try_catch
    (_ <~ upsert_pump areaName pumpId status mode;
     ret true)
    (ret false).

(** [ws.readyState === 1] *)
Definition is_open (w : World) (ws : nat) : bool :=
  bool_decide (readyState <$> sockets w !! ws = Some 1).

(** [async function broadcastPumpStatus(areaName)] *)
Definition broadcastPumpStatus (areaName : string) : M unit :=
  try_catch
    (result <~ select_pump (Some areaName);
     match result with
     | None => ret tt
     | Some pumpStatus =>
         λ w,
           match clients w !! areaName with
           | Some ws =>
               if is_open w ws
               then ws_send ws (pump_status_update (Some areaName) pumpStatus) w
               else ret tt w
           | None => ret tt w
           end
     end)
    (ret tt).

(** [async function handleSoilMoistureUpdate(data)] with
    [data = { area_name, soil_moisture }]. *)
Definition handleSoilMoistureUpdate (area_name : string) (soil_moisture : Z)
    : M unit :=
  try_catch
    (cropSettings <~ select_crop area_name;
     match cropSettings with
     | None => ret tt
     | Some crop =>
         let targetMoisture := optimal_moisture crop + 10 in
         pumpStatusResult <~ select_pump (Some area_name);
         pumpStatus <~
           match pumpStatusResult with
           | None =>
               _ <~ insert_pump area_name (derived_pump_id area_name) false "auto";
               ret (false, "auto"%string)
           | Some row => ret (status row, mode row)
           end;
         if bool_decide (pumpStatus.2 = "auto"%string) then
           let newStatus := bool_decide (soil_moisture < targetMoisture) in
           if bool_decide (newStatus ≠ pumpStatus.1) then
             _ <~ updatePumpStatus area_name (derived_pump_id area_name)
                    newStatus "auto";
             broadcastPumpStatus area_name
           else ret tt
         else ret tt
     end)
    (ret tt).

(** [async function sendOptimalMoisture(areaName, ws)] *)
Definition sendOptimalMoisture (areaName : string) (ws : nat) : M unit :=
  try_catch
    (cropSettings <~ select_crop areaName;
     match cropSettings with
     | None => ws_send ws (optimal_moisture_error "No crop settings found")
     | Some crop =>
         let targetMoisture := optimal_moisture crop + 10 in
         ws_send ws
           (optimal_moisture_success (crop_name crop) (optimal_moisture crop)
              targetMoisture)
     end)
    (ws_send ws (optimal_moisture_error "Database error")).

(** The name a template literal prints for [areaName]. *)
Definition template_name (areaName : option string) : string :=
  default "undefined"%string areaName.

(** [async function sendPumpStatus(areaName, ws)] *)
Definition sendPumpStatus (areaName : option string) (ws : nat) : M unit :=
  try_catch
    (result <~ select_pump areaName;
     λ w,
       let pumpStatus :=
         match result with
         | None =>
             mkPumpRow (derived_pump_id (template_name areaName)) false "auto"
                       (clock w)
         | Some row => row
         end in
       ws_send ws (pump_status_update areaName pumpStatus) w)
    (ret tt).

(** [String.prototype.split] with a non-empty string separator. *)
Fixpoint split_go (sep : string) (skip : nat) (cur : string) (s : string)
    : list string :=
  match s with
  | EmptyString => [cur]
  | String c s' =>
      match skip with
      | S k => split_go sep k cur s'
      | O =>
          if String.prefix sep s
          then cur :: split_go sep (String.length sep - 1) "" s'
          else split_go sep 0 (cur +:+ String c "") s'
      end
  end.

Definition js_split (sep s : string) : list string := split_go sep 0 "" s.

(** [req.url.split('?area=')[1]] *)
Definition area_of_url (url : string) : option string :=
  js_split "?area=" url !! 1%nat.

(** [if (areaName)]: neither [undefined] nor the empty string. *)
Definition truthy (areaName : option string) : bool :=
  match areaName with
  | Some (String _ _) => true
  | _ => false
  end.

(** [wss.on('connection', (ws, req) => ...)], up to the registration of the
    [message] and [close] handlers. *)
Definition on_connection (ws : nat) (url : string) : M unit :=
  let areaName := area_of_url url in
  _ <~ (λ w,
         match areaName with
         | Some a =>
             if truthy areaName then ret tt (set_clients (<[a := ws]> (clients w)) w)
             else ret tt w
         | None => ret tt w
         end);
  sendPumpStatus areaName ws.

(** [ws.on('message', async (message) => ...)] *)
Definition on_message (ws : nat) (data : InMsg) : M unit :=
  try_catch
    (match data with
     | pump_control area_name pump_id status mode =>
         _ <~ updatePumpStatus area_name pump_id status mode;
         broadcastPumpStatus area_name
     | soil_moisture_update area_name soil_moisture =>
         handleSoilMoistureUpdate area_name soil_moisture
     | request_optimal_moisture area_name =>
         sendOptimalMoisture area_name ws
     | unknown_frame => ret tt
     end)
    (ret tt).

(** [ws.on('close', () => ...)], with the [areaName] of its closure. *)
Definition on_close (areaName : option string) : M unit :=
  λ w,
    match areaName with
    | Some a =>
        if truthy areaName then ret tt (set_clients (delete a (clients w)) w)
        else ret tt w
    | None => ret tt w
    end.

(** [app.get('/api/pumps/:area_name', ...)] *)
Definition get_pump (area_name : string) : M HttpResponse :=
  try_catch
    (result <~ select_pump (Some area_name);
     match result with
     | None => ret (mkResponse 404 (body_error "No pump found for this area"))
     | Some row => ret (mkResponse 200 (body_row area_name row))
     end)
    (ret (mkResponse 500 (body_error "Database error"))).

(** [app.post('/api/pumps/:area_name', ...)].  Past the guard both fields
    are defined, and [default] only unwraps them. *)
Definition post_pump (area_name : string) (b : PostBody) : M HttpResponse :=
  let status := body_status b in
  let mode := body_mode b in
  if bool_decide (status = None) || negb (truthy mode)
  then ret (mkResponse 400 (body_error "Missing required fields"))
  else
    try_catch
      (success <~ updatePumpStatus area_name (derived_pump_id area_name)
                    (default false status) (default ""%string mode);
       if success : bool then
         _ <~ broadcastPumpStatus area_name;
         ret (mkResponse 200 (body_success "Pump status updated successfully"))
       else ret (mkResponse 500 (body_error "Failed to update pump status")))
      (ret (mkResponse 500 (body_error "Database error"))).

(* ------------------------------------------------------------------ *)
(** ** The server as a transition system *)

Inductive Event :=
| Connection (ws : nat) (url : string)   (* a client connects *)
| Message (ws : nat) (data : InMsg)      (* a frame arrives on [ws] *)
| Close (ws : nat)                       (* [ws] closes *)
| HttpPost (area_name : string) (b : PostBody)
| HttpGet (area_name : string)
| Tick (d : nat)                         (* time passes *)
| Outage (plan : list bool).             (* the store's next answers *)

(** One event.  A connection brings a [ws] the server has not seen; frames
    and close notifications only come from open sockets. *)
Definition step (e : Event) (w : World) : World :=
  match e with
  | Connection ws url =>
      match sockets w !! ws with
      | Some _ => w
      | None =>
          exec (on_connection ws url)
               (set_sockets (<[ws := mkSocket (area_of_url url) 1]> (sockets w)) w)
      end
  | Message ws data =>
      if is_open w ws then exec (on_message ws data) w else w
  | Close ws =>
      match sockets w !! ws with
      | Some sock =>
          if bool_decide (readyState sock = 1)
          then exec (on_close (sock_area sock))
                    (set_sockets (<[ws := mkSocket (sock_area sock) 3]> (sockets w)) w)
          else w
      | None => w
      end
  | HttpPost area_name b => exec (post_pump area_name b) w
  | HttpGet area_name => exec (get_pump area_name) w
  | Tick d => set_clock (clock w + Z.of_nat d) w
  | Outage plan => set_faults plan w
  end.

Definition run (es : list Event) (w : World) : World :=
  foldl (λ w e, step e w) w es.

(** The server at start-up: an empty [pump_status] table, nobody connected.
    The crop settings, the time and the store's availability are the
    environment's. *)
Definition boot (crops : gmap string CropRow) (now : Z) (plan : list bool)
    : World :=
  mkWorld ∅ crops ∅ ∅ [] [] now plan.

Inductive reachable : World → Prop :=
| reachable_boot crops now plan : reachable (boot crops now plan)
| reachable_step e w : reachable w → reachable (step e w).

(** The store answers the next [n] queries. *)
Definition available (n : nat) (w : World) : Prop :=
  forallb negb (take n (faults w)) = true.

(** Every persisted row carries the pump id derived from its area. *)
Definition pump_ids_derived (w : World) : Prop :=
  ∀ a row, pump_status w !! a = Some row → pump_id row = derived_pump_id a.

(* ------------------------------------------------------------------ *)
(** ** Connections with the status query in flight *)

(** The connection handler calls [sendPumpStatus] without [await]: the call
    issues its SELECT and returns, the [message] and [close] handlers are
    installed, and the rest of [sendPumpStatus] runs when the store answers.
    Frames and requests that arrive in between are handled first. *)

(** [wss.on('connection')] up to the call of [sendPumpStatus]. *)
Definition register_client (ws : nat) (url : string) : M unit :=
  let areaName := area_of_url url in
  λ w,
    match areaName with
    | Some a =>
        if truthy areaName then ret tt (set_clients (<[a := ws]> (clients w)) w)
        else ret tt w
    | None => ret tt w
    end.

(** The server with the status queries whose answer is still awaited, by
    socket, each with the [areaName] it was called with. *)
Record Server := mkServer {
  world : World;
  in_flight : gmap nat (option string)
}.

Inductive Occurrence :=
| Arrives (e : Event)           (* an event reaches the server *)
| StatusAnswered (ws : nat).    (* the store answers the status query of [ws] *)

(** The rest of [sendPumpStatus], run when its SELECT is answered or
    rejected; [ws.send] on a socket that is no longer open delivers
    nothing. *)
Definition answer_status (areaName : option string) (ws : nat) (w : World)
    : World :=
  let w' := exec (sendPumpStatus areaName ws) w in
  if is_open w ws then w' else set_sent (sent w) w'.

Definition astep (o : Occurrence) (s : Server) : Server :=
  match o with
  | Arrives (Connection ws url) =>
      match sockets (world s) !! ws with
      | Some _ => s
      | None =>
          mkServer
            (exec (register_client ws url)
               (set_sockets (<[ws := mkSocket (area_of_url url) 1]>
                               (sockets (world s))) (world s)))
            (<[ws := area_of_url url]> (in_flight s))
      end
  | Arrives e => mkServer (step e (world s)) (in_flight s)
  | StatusAnswered ws =>
      match in_flight s !! ws with
      | Some areaName =>
          mkServer (answer_status areaName ws (world s)) (delete ws (in_flight s))
      | None => s
      end
  end.

Definition arun (os : list Occurrence) (s : Server) : Server :=
  foldl (λ s o, astep o s) s os.

(* ------------------------------------------------------------------ *)
(** ** Vocabulary of the statements *)

(** Concrete tables and worlds for the examples. *)
Definition field1_crops : gmap string CropRow :=
  {[ "field1"%string := mkCropRow "wheat" 40 ]}.

(** [field1] under operator control, its session connected. *)
Definition manual_world : World :=
  mkWorld {[ "field1"%string := mkPumpRow "pump_field1" true "manual" 90 ]}
          field1_crops {[ "field1"%string := 1%nat ]}
          {[ 1%nat := mkSocket (Some "field1"%string) 1 ]} [] [] 100 [].

(** [field1] in auto mode with the pump off, its session connected. *)
Definition auto_world : World :=
  mkWorld {[ "field1"%string := mkPumpRow "pump_field1" false "auto" 90 ]}
          field1_crops {[ "field1"%string := 1%nat ]}
          {[ 1%nat := mkSocket (Some "field1"%string) 1 ]} [] [] 100 [].

(** The view synthesized for an area without a row. *)
Definition default_view (a : string) (now : Z) : PumpRow :=
  mkPumpRow ("pump_" +:+ a) false "auto" now.

(** How a handler working on area [a] with pump id [p] may change the
    table: not at all, or by writing the row of [a], keeping the pump id of
    a row that exists and using [p] for a new one. *)
Definition table_step (a p : string) (t t' : gmap string PumpRow) : Prop :=
  t' = t
  ∨ ∃ st md ts,
      t' = <[a := mkPumpRow (default p (pump_id <$> t !! a)) st md ts]> t.

(** Events whose [pump_control] frames name the pump as the server itself
    would: [pump_<area_name>]. *)
Definition derived_event (e : Event) : Prop :=
  match e with
  | Message _ (pump_control a p _ _) => p = derived_pump_id a
  | _ => True
  end.

(** A run in which every path writes. *)
Definition derived_trace : list Event :=
  [ Connection 1 "/?area=field1";
    Message 1 (soil_moisture_update "field1" 45);
    Message 1 (pump_control "field1" "pump_field1" false "manual");
    HttpPost "field2" (mkPostBody (Some true) (Some "manual"%string)) ].

(** An operator command, by the path it arrives on. *)
Inductive OperatorCommand :=
| by_socket (ws : nat) (area_name pump_id : string) (status : bool) (mode : string)
| by_post (area_name : string) (status : bool) (mode : string).

(** The handler a command runs through. *)
Definition apply_command (c : OperatorCommand) (w : World) : World :=
  match c with
  | by_socket ws a p st md => exec (on_message ws (pump_control a p st md)) w
  | by_post a st md => exec (post_pump a (mkPostBody (Some st) (Some md))) w
  end.

(** The area a command addresses. *)
Definition command_area (c : OperatorCommand) : string :=
  match c with
  | by_socket _ a _ _ _ => a
  | by_post a _ _ => a
  end.

(** The POST guard lets the command through. *)
Definition passes_guard (c : OperatorCommand) : Prop :=
  match c with
  | by_socket _ _ _ _ _ => True
  | by_post _ _ md => md ≠ ""%string
  end.

(** A row with its timestamp blanked. *)
Definition timeless (row : PumpRow) : PumpRow :=
  mkPumpRow (pump_id row) (status row) (mode row) 0.

(** A frame with the timestamp of the row it carries blanked. *)
Definition frame_content (f : nat * Payload) : nat * Payload :=
  match f.2 with
  | pump_status_update a row => (f.1, pump_status_update a (timeless row))
  | _ => f
  end.

(** The timestamp a frame carries. *)
Definition frame_time (f : nat * Payload) : option Z :=
  match f.2 with
  | pump_status_update _ row => Some (last_updated row)
  | _ => None
  end.

(** The frames sent between two worlds of a run. *)
Definition pushed (w w' : World) : list (nat * Payload) :=
  drop (length (sent w)) (sent w').

(** What one application of a command writes and sends when the store
    answers its two queries. *)
Definition command_row (c : OperatorCommand) (w : World) : PumpRow :=
  match c with
  | by_socket _ a p st md =>
      mkPumpRow (default p (pump_id <$> pump_status w !! a)) st md (clock w)
  | by_post a st md =>
      mkPumpRow (default (derived_pump_id a) (pump_id <$> pump_status w !! a))
                st md (clock w)
  end.

(** The frame its broadcast sends, if the area's session is open. *)
Definition command_frames (c : OperatorCommand) (w : World)
    : list (nat * Payload) :=
  match clients w !! command_area c with
  | Some ws =>
      if is_open w ws
      then [(ws, pump_status_update (Some (command_area c)) (command_row c w))]
      else []
  | None => []
  end.

(* ------------------------------------------------------------------ *)
(** ** Vocabulary of the further properties *)

From Stdlib Require Import Ascii.

(** The area whose row an event may write. *)
Definition event_area (e : Event) : option string :=
  match e with
  | Message _ (pump_control a _ _ _) => Some a
  | Message _ (soil_moisture_update a _) => Some a
  | HttpPost a _ => Some a
  | _ => None
  end.

(** Every registered session is a socket that connected for the area it
    is registered under, and that area name is not empty. *)
Definition registry_by_area (w : World) : Prop :=
  ∀ a ws, clients w !! a = Some ws →
    a ≠ ""%string ∧ sock_area <$> sockets w !! ws = Some (Some a).

(** What a broadcast for area [a] adds to the frames between [w] and [w']:
    nothing, or one frame for the session registered for [a], which is open,
    carrying the row of [a] as [w'] has it. *)
Definition broadcast_effect (a : string) (w w' : World) : Prop :=
  sent w' = sent w
  ∨ ∃ ws row,
      sent w' = sent w ++ [(ws, pump_status_update (Some a) row)]
      ∧ clients w !! a = Some ws
      ∧ is_open w ws = true
      ∧ pump_status w' !! a = Some row.

(** [s] has no occurrence of the character [c]. *)
Fixpoint lacks (c : ascii) (s : string) : bool :=
  match s with
  | EmptyString => true
  | String x s' => if Ascii.ascii_dec c x then false else lacks c s'
  end.

(** The part of the world a handler can only read. *)
Definition surroundings (w : World)
    : gmap string CropRow * gmap string nat * gmap nat Socket * Z :=
  (crop_settings w, clients w, sockets w, clock w).

(** A POST body the guard lets through: both fields are there and [mode] is
    not the empty string. *)
Definition complete (b : PostBody) : Prop :=
  ∃ st md, body_status b = Some st ∧ body_mode b = Some md ∧ md ≠ ""%string.

(** Connections and closes, the two events that touch the registry. *)
Definition is_session_event (e : Event) : bool :=
  match e with
  | Connection _ _ | Close _ => true
  | _ => false
  end.


(* ------------------------------------------------------------------ *)
(** ** Sanity checks on concrete runs *)

Example split_url :
  js_split "?area=" "/ws?area=field1" = ["/ws"; "field1"]%string.
Proof. reflexivity. Qed.

Example split_no_area : area_of_url "/ws" = None.
Proof. reflexivity. Qed.

Example split_twice :
  js_split "?area=" "/?area=a?area=b" = ["/"; "a"; "b"]%string.
Proof. reflexivity. Qed.

(** Optimum 40, so target 50: a reading of 45 starts the pump and one of 55
    stops it; once an operator has switched to manual, readings are skipped. *)
Example scenario_field1 :
  let w1 := run [Connection 1 "/?area=field1";
                 Message 1 (soil_moisture_update "field1" 45)]
                (boot field1_crops 100 []) in
  let w2 := run [Tick 5; Message 1 (soil_moisture_update "field1" 55)] w1 in
  let w3 := run [HttpPost "field1" (mkPostBody (Some true) (Some "manual"%string));
                 Message 1 (soil_moisture_update "field1" 55)] w2 in
  pump_status w1 !! "field1"%string = Some (mkPumpRow "pump_field1" true "auto" 100)
  ∧ pump_status w2 !! "field1"%string = Some (mkPumpRow "pump_field1" false "auto" 105)
  ∧ pump_status w3 !! "field1"%string = Some (mkPumpRow "pump_field1" true "manual" 105)
  ∧ length (sent w3) = 4%nat.
Proof. vm_compute. done. Qed.

(* ------------------------------------------------------------------ *)
(** ** Journal and schedule lemmas *)

Lemma writes_app j1 j2 : writes (j1 ++ j2) = writes j1 ++ writes j2.
Proof. unfold writes. apply List.filter_app. Qed.

Lemma writes_select j s ok : is_write s = false → writes (j ++ [(s, ok)]) = writes j.
Proof.
  intros Hs. rewrite writes_app. unfold writes at 2. simpl. rewrite Hs.
  apply app_nil_r.
Qed.

Lemma available_le n m w : (m ≤ n)%nat → available n w → available m w.
Proof.
  unfold available. generalize (faults w). clear w.
  revert m; induction n as [|n IH]; intros m fs Hle H.
  - replace m with 0%nat by lia. done.
  - destruct m as [|m]; [done|]. destruct fs as [|f fs]; [done|].
    simpl in *. apply andb_prop in H as [-> H]. simpl. apply IH; [lia | done].
Qed.

Ltac unfold_handlers :=
  unfold exec, result, on_message, on_connection, on_close, post_pump, get_pump,
    handleSoilMoistureUpdate, sendPumpStatus, sendOptimalMoisture,
    broadcastPumpStatus, is_open, updatePumpStatus, upsert_pump, insert_pump,
    select_pump, select_crop, pool_query, ws_send, try_catch, bind, ret, log.

(** Symbolic execution of a handler: split on the schedule entry of each
    query and on each table lookup. *)
Ltac exec_step :=
  match goal with
  | |- context [pop_fault ?fs] => is_var fs; destruct fs as [|[] ?]
  | |- context [<[?k := _]> _ !! ?k] => rewrite lookup_insert_eq
  | H : ?m !! ?k = _ |- context [?m !! ?k] => rewrite H
  | |- context [match ?m !! ?k with _ => _ end] => destruct (m !! k) eqn:?
  | |- context [if bool_decide ?P then _ else _] =>
      destruct (bool_decide_reflect P)
  end.

Ltac exec_handler w :=
  unfold_handlers; unfold available in *;
  destruct w as [?ps ?cs ?cl ?so ?se ?jo ?ck ?fs]; simpl in *;
  repeat (simpl in *; try discriminate; exec_step); simpl in *.

(* ------------------------------------------------------------------ *)
(** ** Sensor readings *)

(** C2.  A reading for an area whose persisted mode is not [auto] (manual in
    particular) changes neither table nor registry, issues no write
    statement and sends no frame: status and mode of the row stay as they
    are, whatever the store's availability. *)
Theorem manual_reading_skipped (w : World) (a : string) (r : Z) (row : PumpRow) :
  pump_status w !! a = Some row →
  mode row ≠ "auto"%string →
  let w' := exec (handleSoilMoistureUpdate a r) w in
  pump_status w' = pump_status w
  ∧ pump_status w' !! a = Some row
  ∧ writes (journal w') = writes (journal w)
  ∧ sent w' = sent w
  ∧ clients w' = clients w.
Proof.
  intros Hrow Hmode. exec_handler w.
  all: rewrite ?bool_decide_false by done; simpl.
  all: rewrite ?writes_select by done.
  all: done.
Qed.

Lemma manual_reading_skipped_witness :
  let w' := exec (handleSoilMoistureUpdate "field1" 48) manual_world in
  pump_status w' = pump_status manual_world
  ∧ pump_status w' !! "field1"%string = Some (mkPumpRow "pump_field1" true "manual" 90)
  ∧ writes (journal w') = writes (journal manual_world)
  ∧ sent w' = sent manual_world
  ∧ clients w' = clients manual_world.
Proof.
  apply (manual_reading_skipped manual_world "field1" 48
           (mkPumpRow "pump_field1" true "manual" 90)).
  - reflexivity.
  - discriminate.
Defined.

(** C1.  In auto mode (a row in mode [auto], or no row yet, which is created
    in that mode) and with crop settings of optimum [m], once a reading [r]
    has been processed by an answering store the area's status is [true]
    exactly when [r < m + 10]. *)
Theorem auto_reading_decides_status (w : World) (a : string) (r : Z)
    (crop : CropRow) :
  crop_settings w !! a = Some crop →
  (∀ row, pump_status w !! a = Some row → mode row = "auto"%string) →
  available 4 w →
  ∃ row',
    pump_status (exec (handleSoilMoistureUpdate a r) w) !! a = Some row'
    ∧ mode row' = "auto"%string
    ∧ (status row' = true ↔ r < optimal_moisture crop + 10).
Proof.
  intros Hcrop Hauto Hav. exec_handler w.
  all: try discriminate.
  all: eexists; split; [reflexivity|]; simpl; split; [by auto|].
  all: repeat match goal with H : ¬ (_ ≠ _) |- _ => apply dec_stable in H end.
  all: try (rewrite bool_decide_eq_true; tauto).
  all: try (exfalso; naive_solver).
  all: match goal with H : bool_decide _ = _ |- _ => rewrite <- H end.
  all: rewrite bool_decide_eq_true; tauto.
Qed.

Lemma auto_reading_decides_status_witness :
  ∃ row',
    pump_status (exec (handleSoilMoistureUpdate "field1" 45) auto_world)
      !! "field1"%string = Some row'
    ∧ mode row' = "auto"%string
    ∧ (status row' = true ↔ 45 < optimal_moisture (mkCropRow "wheat" 40) + 10).
Proof.
  apply (auto_reading_decides_status auto_world "field1" 45 (mkCropRow "wheat" 40)).
  - reflexivity.
  - intros row Hrow. vm_compute in Hrow. injection Hrow as <-. reflexivity.
  - reflexivity.
Defined.

Lemma writes_write j s ok :
  is_write s = true → writes (j ++ [(s, ok)]) = writes j ++ [(s, ok)].
Proof. intros Hs. rewrite writes_app. unfold writes at 2. simpl. by rewrite Hs. Qed.

(** C3.  For a reading on an area in auto mode with crop settings: when the
    computed status equals the persisted one, no write statement is issued,
    the table is unchanged and no frame is sent; so a write or a frame
    implies a status transition.  On a transition with the store answering,
    the write is exactly one upsert of the area's row. *)
Theorem unchanged_reading_skipped (w : World) (a : string) (r : Z)
    (crop : CropRow) (row : PumpRow) :
  crop_settings w !! a = Some crop →
  pump_status w !! a = Some row →
  mode row = "auto"%string →
  let newStatus := bool_decide (r < optimal_moisture crop + 10) in
  let w' := exec (handleSoilMoistureUpdate a r) w in
  (newStatus = status row →
     writes (journal w') = writes (journal w)
     ∧ pump_status w' = pump_status w
     ∧ sent w' = sent w)
  ∧ (writes (journal w') ≠ writes (journal w) ∨ sent w' ≠ sent w →
     newStatus ≠ status row)
  ∧ (newStatus ≠ status row → available 3 w →
     writes (journal w') = writes (journal w) ++ [(UpsertPump a, true)]).
Proof.
  intros Hcrop Hrow Hauto newStatus w'.
  assert (Hskip : newStatus = status row →
     writes (journal w') = writes (journal w)
     ∧ pump_status w' = pump_status w
     ∧ sent w' = sent w).
  { subst newStatus w'. intros Heq. exec_handler w.
    all: rewrite ?writes_select by done; try done. }
  split; [exact Hskip|]. split.
  - intros Hchg Heq. destruct (Hskip Heq) as (Hw & _ & Hs).
    destruct Hchg as [Hchg|Hchg]; by apply Hchg.
  - subst newStatus w'. intros Hne Hav. exec_handler w.
    all: rewrite ?writes_select by done; try done.
    all: rewrite ?writes_write by done; rewrite ?writes_select by done; try done.
Qed.

Lemma unchanged_reading_skipped_witness :
  (let w' := exec (handleSoilMoistureUpdate "field1" 55) auto_world in
   writes (journal w') = writes (journal auto_world)
   ∧ pump_status w' = pump_status auto_world
   ∧ sent w' = sent auto_world)
  ∧ (let w' := exec (handleSoilMoistureUpdate "field1" 45) auto_world in
     writes (journal w') = writes (journal auto_world) ++ [(UpsertPump "field1", true)]).
Proof.
  split.
  - apply (unchanged_reading_skipped auto_world "field1" 55 (mkCropRow "wheat" 40)
             (mkPumpRow "pump_field1" false "auto" 90));
      reflexivity.
  - apply (unchanged_reading_skipped auto_world "field1" 45 (mkCropRow "wheat" 40)
             (mkPumpRow "pump_field1" false "auto" 90));
      try reflexivity.
    vm_compute. discriminate.
Defined.

(* ------------------------------------------------------------------ *)
(** ** Status queries on the streaming path *)

(** C6.  A status query on the streaming path for an area without a row
    issues no write statement and leaves the table as it is (the area still
    has no row); when the store answers, the frame sent is the synthesized
    view: status [false], mode [auto], pump id ["pump_" + area]. *)
Theorem status_query_new_area (w : World) (a : string) (ws : nat) :
  pump_status w !! a = None →
  let w' := exec (sendPumpStatus (Some a) ws) w in
  writes (journal w') = writes (journal w)
  ∧ pump_status w' = pump_status w
  ∧ pump_status w' !! a = None
  ∧ (available 1 w →
     sent w' = sent w ++ [(ws, pump_status_update (Some a) (default_view a (clock w)))]).
Proof.
  intros Hrow. exec_handler w.
  all: rewrite ?writes_select by done; try done.
Qed.

Lemma status_query_new_area_witness :
  let w := boot field1_crops 100 [] in
  let w' := exec (sendPumpStatus (Some "field9"%string) 7) w in
  writes (journal w') = writes (journal w)
  ∧ pump_status w' = pump_status w
  ∧ pump_status w' !! "field9"%string = None
  ∧ sent w' = [(7%nat, pump_status_update (Some "field9"%string)
                          (mkPumpRow "pump_field9" false "auto" 100))].
Proof.
  destruct (status_query_new_area (boot field1_crops 100 []) "field9" 7)
    as (Hj & Ht & Hn & Hs).
  - reflexivity.
  - split; [exact Hj|]. split; [exact Ht|]. split; [exact Hn|].
    apply Hs. reflexivity.
Defined.

(** In the run-to-completion order, where the status query of a connection
    is answered before anything else arrives: a connection whose URL carries
    an area name sends exactly one [pump_status_update] frame to the new
    session (given that the store answers the query), the area's row if
    there is one, the synthesized default otherwise. *)
Theorem connection_pushes_status (w : World) (ws : nat) (url a : string) :
  sockets w !! ws = None →
  area_of_url url = Some a →
  available 1 w →
  sent (step (Connection ws url) w) =
    sent w ++ [(ws, pump_status_update (Some a)
                      (default (default_view a (clock w)) (pump_status w !! a)))].
Proof.
  intros Hnew Harea Hav. unfold step. rewrite Hnew.
  unfold on_connection. rewrite Harea.
  destruct (truthy (Some a)); exec_handler w; done.
Qed.

Lemma connection_pushes_status_witness :
  sent (step (Connection 2 "/?area=field1") auto_world) =
    [(2%nat, pump_status_update (Some "field1"%string)
               (mkPumpRow "pump_field1" false "auto" 90))]
  ∧ sent (step (Connection 2 "/?area=field9") auto_world) =
    [(2%nat, pump_status_update (Some "field9"%string)
               (mkPumpRow "pump_field9" false "auto" 100))].
Proof.
  split.
  - apply (connection_pushes_status auto_world 2 "/?area=field1" "field1");
      reflexivity.
  - apply (connection_pushes_status auto_world 2 "/?area=field9" "field9");
      reflexivity.
Defined.

Lemma on_connection_split ws url :
  on_connection ws url =
    bind (register_client ws url) (λ _, sendPumpStatus (area_of_url url) ws).
Proof. reflexivity. Qed.

(** The run-to-completion order is one schedule of the server with queries
    in flight: the one in which the status query of a connection is answered
    before anything else arrives. *)
Lemma step_connection_as_occurrences (s : Server) (ws : nat) (url : string) :
  sockets (world s) !! ws = None →
  world (arun [Arrives (Connection ws url); StatusAnswered ws] s)
    = step (Connection ws url) (world s).
Proof.
  intros Hnew. simpl. rewrite Hnew. simpl. rewrite lookup_insert_eq. simpl.
  unfold answer_status.
  assert (Hopen : is_open (exec (register_client ws url)
             (set_sockets (<[ws:=mkSocket (area_of_url url) 1]> (sockets (world s)))
                (world s))) ws = true).
  { unfold is_open, register_client, exec.
    destruct (area_of_url url) as [a|]; [destruct (truthy (Some a))|]; simpl;
      by rewrite lookup_insert_eq. }
  rewrite Hopen. rewrite on_connection_split. unfold exec, bind, register_client.
  destruct (area_of_url url) as [a|]; [destruct (truthy (Some a))|]; done.
Qed.

(** C10, as the code has it.  A connection carrying an area name sends
    nothing itself and leaves the status query of the new session in flight.
    Whenever that query, still in flight, is answered by the store while the
    session is open, exactly one [pump_status_update] frame is pushed to the
    session, the row the area has at that moment or else the synthesized
    default, and the query is no longer in flight. *)
Theorem connection_status_pushed_when_answered (s s' : Server) (ws : nat)
    (url a : string) :
  sockets (world s) !! ws = None →
  area_of_url url = Some a →
  in_flight s' !! ws = Some (Some a) →
  is_open (world s') ws = true →
  available 1 (world s') →
  let s1 := astep (Arrives (Connection ws url)) s in
  let s2 := astep (StatusAnswered ws) s' in
  sent (world s1) = sent (world s)
  ∧ in_flight s1 !! ws = Some (Some a)
  ∧ sent (world s2) =
      sent (world s') ++
        [(ws, pump_status_update (Some a)
                (default (default_view a (clock (world s')))
                         (pump_status (world s') !! a)))]
  ∧ in_flight s2 !! ws = None.
Proof.
  intros Hnew Harea Hfl Hopen Hav. simpl. rewrite Hnew, Hfl. simpl.
  split; [|split; [|split]].
  - unfold register_client, exec. rewrite Harea.
    by destruct (truthy (Some a)).
  - by rewrite lookup_insert_eq, Harea.
  - unfold answer_status. rewrite Hopen.
    destruct (world s') as [ps cs cl so se jo ck fs] eqn:Hw. clear Hw Hopen.
    revert Hav. unfold_handlers. unfold available. simpl.
    intros Hav. destruct fs as [|[] fs]; simpl in *; try discriminate;
      by destruct (ps !! a).
  - apply lookup_delete_eq.
Qed.

Lemma connection_status_pushed_when_answered_witness :
  let s := mkServer auto_world ∅ in
  let s' := arun [Arrives (Connection 2 "/?area=field1");
                  Arrives (Message 1 (pump_control "field1" "pump_field1" true "manual"))]
                 s in
  let s1 := astep (Arrives (Connection 2 "/?area=field1")) s in
  let s2 := astep (StatusAnswered 2) s' in
  sent (world s1) = sent (world s)
  ∧ in_flight s1 !! 2%nat = Some (Some "field1"%string)
  ∧ sent (world s2) =
      sent (world s') ++
        [(2%nat, pump_status_update (Some "field1"%string)
                   (default (default_view "field1" (clock (world s')))
                            (pump_status (world s') !! "field1"%string)))]
  ∧ in_flight s2 !! 2%nat = None.
Proof.
  apply (connection_status_pushed_when_answered
           (mkServer auto_world ∅)
           (arun [Arrives (Connection 2 "/?area=field1");
                  Arrives (Message 1 (pump_control "field1" "pump_field1" true "manual"))]
                 (mkServer auto_world ∅))
           2 "/?area=field1" "field1").
  - reflexivity.
  - reflexivity.
  - reflexivity.
  - reflexivity.
  - reflexivity.
Defined.

(** C10 as stated fails: the push does not precede inbound frames.  A frame
    that arrives on the new session while the status query is in flight is
    handled, and here answered, before the [pump_status_update] is pushed. *)
Lemma inbound_frame_answered_before_status_push :
  let s0 := mkServer (boot field1_crops 100 []) ∅ in
  let s1 := astep (Arrives (Connection 1 "/?area=field1")) s0 in
  let s2 := astep (Arrives (Message 1 (request_optimal_moisture "field1"))) s1 in
  let s3 := astep (StatusAnswered 1) s2 in
  sent (world s1) = []
  ∧ sent (world s2) = [(1%nat, optimal_moisture_success "wheat" 40 50)]
  ∧ sent (world s3) =
      [(1%nat, optimal_moisture_success "wheat" 40 50);
       (1%nat, pump_status_update (Some "field1"%string)
                 (mkPumpRow "pump_field1" false "auto" 100))].
Proof. vm_compute. done. Qed.

(* ------------------------------------------------------------------ *)
(** ** Operator commands over REST *)

(** C8.  A POST whose body lacks [status] or lacks [mode] (the empty body
    lacks both) is answered 400 and leaves the whole world untouched: no
    statement reaches the store. *)
Theorem post_missing_field_rejected (w : World) (a : string) (b : PostBody) :
  body_status b = None ∨ body_mode b = None →
  post_pump a b w = (Some (mkResponse 400 (body_error "Missing required fields")), w).
Proof.
  intros Hmiss. unfold post_pump.
  destruct b as [[st|] [md|]]; simpl in *; try reflexivity.
  destruct Hmiss; discriminate.
Qed.

Lemma post_missing_field_rejected_witness :
  post_pump "field1" (mkPostBody None None) auto_world =
    (Some (mkResponse 400 (body_error "Missing required fields")), auto_world).
Proof.
  apply (post_missing_field_rejected auto_world "field1" (mkPostBody None None)).
  left. reflexivity.
Defined.

(** The REST path on a failed write: the caller gets 500, the table is
    unchanged and nothing is broadcast. *)
Lemma post_failed_write_reported (w : World) (a : string) (st : bool)
    (md : string) (fs : list bool) :
  md ≠ ""%string →
  faults w = true :: fs →
  let b := mkPostBody (Some st) (Some md) in
  result (post_pump a b) w
    = Some (mkResponse 500 (body_error "Failed to update pump status"))
  ∧ pump_status (exec (post_pump a b) w) = pump_status w
  ∧ sent (exec (post_pump a b) w) = sent w.
Proof.
  intros Hmd Hf. unfold post_pump. simpl.
  destruct md as [|c md]; [done|]. simpl.
  unfold_handlers. destruct w as [ps cs cl so se jo ck fs0]; simpl in *.
  subst fs0. simpl. done.
Qed.

(** The streaming path on a failed write whose follow-up read is answered:
    the row is unchanged and is broadcast to the area's open session. *)
Lemma pump_control_failed_write_unreported (w : World) (ws ws0 : nat)
    (a p : string) (st : bool) (md : string) (row : PumpRow) (fs : list bool) :
  faults w = true :: false :: fs →
  pump_status w !! a = Some row →
  clients w !! a = Some ws0 →
  is_open w ws0 = true →
  let w' := exec (on_message ws (pump_control a p st md)) w in
  pump_status w' = pump_status w
  ∧ sent w' = sent w ++ [(ws0, pump_status_update (Some a) row)].
Proof.
  intros Hf Hrow Hcl Hopen. unfold is_open in Hopen.
  apply bool_decide_eq_true in Hopen.
  unfold_handlers. destruct w as [ps cs cl so se jo ck fs0]; simpl in *.
  subst fs0. repeat (simpl in *; exec_step); simpl; done.
Qed.

(** C4, on the streaming path.  The upsert of a [pump_control] command is
    rejected and the read that follows is answered: the handler drops the
    outcome of [updatePumpStatus] and broadcasts all the same, so the
    session receives the row as it was before the command, and no frame
    tells it that the command failed. *)
Theorem pump_control_failed_write_broadcasts :
  let w := run [Connection 1 "/?area=field1";
                HttpPost "field1" (mkPostBody (Some false) (Some "auto"%string));
                Tick 5; Outage [true]]
               (boot field1_crops 100 []) in
  let w' := step (Message 1 (pump_control "field1" "pump_field1" true "manual")) w in
  pump_status w !! "field1"%string = Some (mkPumpRow "pump_field1" false "auto" 100)
  ∧ drop (length (journal w)) (journal w')
    = [(UpsertPump "field1", false); (SelectPump (Some "field1"%string), true)]
  ∧ pump_status w' = pump_status w
  ∧ pushed w w' = [(1%nat, pump_status_update (Some "field1"%string)
                             (mkPumpRow "pump_field1" false "auto" 100))].
Proof. vm_compute. done. Qed.

(* ------------------------------------------------------------------ *)
(** ** The connection registry *)

(** C5.  Two sessions connect for the same area and the first, superseded
    one then closes: its close handler deletes the area's entry, which by
    then is the second session's.  The second session is still open but no
    longer registered, and a later operator command reaches nobody. *)
Theorem stale_close_evicts_live_session :
  let w2 := run [Connection 1 "/?area=field1"; Connection 2 "/?area=field1"]
                (boot field1_crops 100 []) in
  let w3 := step (Close 1) w2 in
  let w4 := step (HttpPost "field1" (mkPostBody (Some true) (Some "manual"%string))) w3 in
  clients w2 !! "field1"%string = Some 2%nat
  ∧ clients w3 !! "field1"%string = None
  ∧ is_open w3 2 = true
  ∧ pump_status w4 !! "field1"%string = Some (mkPumpRow "pump_field1" true "manual" 100)
  ∧ sent w4 = sent w3.
Proof. vm_compute. done. Qed.

(* ------------------------------------------------------------------ *)
(** ** Pump ids *)

Lemma table_step_keeps a p t t' k row :
  table_step a p t t' → t !! k = Some row →
  ∃ row', t' !! k = Some row' ∧ pump_id row' = pump_id row.
Proof.
  intros [->|(st & md & ts & ->)] Hk; [by eauto|].
  destruct (decide (a = k)) as [->|Hne].
  - rewrite lookup_insert_eq, Hk. simpl. eauto.
  - rewrite lookup_insert_ne by done. eauto.
Qed.

Lemma table_step_new a p t t' k row' :
  table_step a p t t' → t !! k = None → t' !! k = Some row' →
  k = a ∧ pump_id row' = p.
Proof.
  intros [->|(st & md & ts & ->)] Hk Hk'; [congruence|].
  destruct (decide (a = k)) as [->|Hne].
  - rewrite lookup_insert_eq, Hk in Hk'. simpl in Hk'. by injection Hk' as <-.
  - rewrite lookup_insert_ne in Hk' by done. congruence.
Qed.

Ltac table_step_tac :=
  first
    [ by left
    | right; do 3 eexists;
      rewrite ?insert_insert_eq;
      repeat match goal with H : _ !! _ = _ |- _ => rewrite H end;
      simpl; reflexivity ].

Lemma updatePumpStatus_table a p st md w :
  table_step a p (pump_status w) (pump_status (exec (updatePumpStatus a p st md) w)).
Proof. exec_handler w; table_step_tac. Qed.

Lemma broadcastPumpStatus_table a w :
  pump_status (exec (broadcastPumpStatus a) w) = pump_status w.
Proof. exec_handler w; done. Qed.

Lemma handleSoilMoistureUpdate_table a r w :
  table_step a (derived_pump_id a) (pump_status w)
    (pump_status (exec (handleSoilMoistureUpdate a r) w)).
Proof. exec_handler w; table_step_tac. Qed.

Lemma sendOptimalMoisture_table a ws w :
  pump_status (exec (sendOptimalMoisture a ws) w) = pump_status w.
Proof. exec_handler w; done. Qed.

Lemma sendPumpStatus_table a ws w :
  pump_status (exec (sendPumpStatus a ws) w) = pump_status w.
Proof. destruct a; exec_handler w; done. Qed.

Lemma post_pump_table a b w :
  table_step a (derived_pump_id a) (pump_status w)
    (pump_status (exec (post_pump a b) w)).
Proof.
  unfold post_pump.
  destruct (bool_decide (body_status b = None) || negb (truthy (body_mode b)));
    [by left|].
  exec_handler w; table_step_tac.
Qed.

Lemma get_pump_table a w : pump_status (exec (get_pump a) w) = pump_status w.
Proof. exec_handler w; done. Qed.

Lemma on_message_table ws data w :
  match data with
  | pump_control a p _ _ =>
      table_step a p (pump_status w) (pump_status (exec (on_message ws data) w))
  | soil_moisture_update a _ =>
      table_step a (derived_pump_id a) (pump_status w)
        (pump_status (exec (on_message ws data) w))
  | _ => pump_status (exec (on_message ws data) w) = pump_status w
  end.
Proof.
  destruct data as [a p st md|a r|a|].
  - exec_handler w; table_step_tac.
  - exec_handler w; table_step_tac.
  - exec_handler w; done.
  - done.
Qed.

Lemma step_table e w :
  ∃ a p, table_step a p (pump_status w) (pump_status (step e w))
         ∧ (derived_event e → p = derived_pump_id a).
Proof.
  destruct e as [ws url|ws data|ws|a b|a|d|plan]; simpl.
  - exists ""%string, (derived_pump_id ""). split; [|done]. left.
    destruct (sockets w !! ws); [done|].
    unfold on_connection, exec, bind.
    destruct (area_of_url url) as [a|]; [destruct (truthy (Some a))|]; simpl;
      match goal with |- context [sendPumpStatus ?x ?y ?z] =>
        apply (sendPumpStatus_table x y z) end.
  - destruct (is_open w ws).
    + pose proof (on_message_table ws data w) as H.
      destruct data as [a p st md|a r|a|].
      * exists a, p. done.
      * exists a, (derived_pump_id a). done.
      * exists a, (derived_pump_id a). split; [left; exact H | done].
      * exists ""%string, (derived_pump_id ""). split; [left; exact H | done].
    + exists ""%string, (derived_pump_id ""). split; [by left | done].
  - exists ""%string, (derived_pump_id ""). split; [|done]. left.
    destruct (sockets w !! ws) as [sock|]; [|done].
    case_bool_decide; [|done].
    unfold on_close, exec.
    destruct (sock_area sock) as [a|]; [destruct (truthy (Some a))|]; done.
  - exists a, (derived_pump_id a). split; [apply post_pump_table | done].
  - exists a, (derived_pump_id a). split; [left; apply get_pump_table | done].
  - exists ""%string, (derived_pump_id ""). split; [by left | done].
  - exists ""%string, (derived_pump_id ""). split; [by left | done].
Qed.

Lemma step_keeps_pump_id e w a row :
  pump_status w !! a = Some row →
  ∃ row', pump_status (step e w) !! a = Some row' ∧ pump_id row' = pump_id row.
Proof.
  intros Hrow. destruct (step_table e w) as (a0 & p & Hstep & _).
  by eapply table_step_keeps.
Qed.

Lemma step_derived e w :
  derived_event e → pump_ids_derived w → pump_ids_derived (step e w).
Proof.
  intros He Hinv a row' Hrow'.
  destruct (step_table e w) as (a0 & p & Hstep & Hp).
  destruct (pump_status w !! a) as [row|] eqn:Hrow.
  - destruct (table_step_keeps _ _ _ _ _ _ Hstep Hrow) as (row'' & Hrow'' & Hid).
    rewrite Hrow' in Hrow''. injection Hrow'' as <-.
    rewrite Hid. by apply Hinv.
  - destruct (table_step_new _ _ _ _ _ _ Hstep Hrow Hrow') as [-> ->].
    by apply Hp.
Qed.

Lemma run_cons e es w : run (e :: es) w = run es (step e w).
Proof. reflexivity. Qed.

Lemma reachable_run es w : reachable w → reachable (run es w).
Proof.
  revert w; induction es as [|e es IH]; intros w Hw; [done|].
  rewrite run_cons. apply IH. by constructor.
Qed.

(** What does hold of pump ids.  No event changes the pump id of a row that
    exists, and rows are never removed; rows created by a sensor reading or
    a POST command carry the derived id.  So every row of a state reached
    through events whose [pump_control] frames carry [pump_<area_name>]
    has the derived id, provided the rows of the starting state do. *)
Theorem pump_id_kept_and_derived (es : list Event) (w : World) :
  (∀ a row, pump_status w !! a = Some row →
     ∃ row', pump_status (run es w) !! a = Some row' ∧ pump_id row' = pump_id row)
  ∧ (Forall derived_event es → pump_ids_derived w → pump_ids_derived (run es w)).
Proof.
  revert w; induction es as [|e es IH]; intros w.
  - split; [by eauto | done].
  - rewrite run_cons. destruct (IH (step e w)) as [IHk IHd]. split.
    + intros a row Hrow.
      destruct (step_keeps_pump_id e w a row Hrow) as (row1 & Hrow1 & Hid1).
      destruct (IHk a row1 Hrow1) as (row2 & Hrow2 & Hid2).
      exists row2. split; [done | congruence].
    + intros Hes Hinv. apply Forall_cons in Hes as [He Hes].
      apply IHd; [done|]. by apply step_derived.
Qed.

Lemma pump_id_kept_and_derived_witness :
  (∃ row', pump_status (run derived_trace manual_world) !! "field1"%string = Some row'
           ∧ pump_id row' = "pump_field1"%string)
  ∧ pump_ids_derived (run derived_trace (boot field1_crops 100 [])).
Proof.
  destruct (pump_id_kept_and_derived derived_trace manual_world) as [Hk _].
  destruct (pump_id_kept_and_derived derived_trace (boot field1_crops 100 []))
    as [_ Hd].
  split.
  - apply (Hk "field1"%string (mkPumpRow "pump_field1" true "manual" 90)).
    reflexivity.
  - apply Hd.
    + repeat constructor.
    + intros a row Hrow. vm_compute in Hrow. discriminate.
Defined.

(** C7, on the streaming path.  A [pump_control] frame for an area without
    a row hands [data.pump_id] to [updatePumpStatus], so the row is created
    with the pump id the frame carries and the reachable table has a row
    whose pump id is not [pump_<area_name>]; the same command through the
    POST endpoint creates the row with the derived id. *)
Lemma pump_control_row_takes_frame_pump_id :
  let w := run [Connection 1 "/?area=field1";
                Message 1 (pump_control "field1" "valve7" true "manual")]
               (boot field1_crops 100 []) in
  let w' := run [Connection 1 "/?area=field1";
                 HttpPost "field1" (mkPostBody (Some true) (Some "manual"%string))]
                (boot field1_crops 100 []) in
  reachable w
  ∧ pump_status w !! "field1"%string = Some (mkPumpRow "valve7" true "manual" 100)
  ∧ ¬ pump_ids_derived w
  ∧ pump_status w' !! "field1"%string
      = Some (mkPumpRow "pump_field1" true "manual" 100).
Proof.
  split; [|split; [|split]].
  - apply reachable_run. constructor.
  - vm_compute. reflexivity.
  - intros Hinv.
    specialize (Hinv "field1"%string (mkPumpRow "valve7" true "manual" 100)).
    assert (Hcontra : "valve7"%string = derived_pump_id "field1")
      by (apply Hinv; vm_compute; reflexivity).
    vm_compute in Hcontra. discriminate.
  - vm_compute. reflexivity.
Qed.

(* ------------------------------------------------------------------ *)
(** ** Repeating an operator command *)

Lemma updatePumpStatus_answered a p st md w :
  available 1 w →
  updatePumpStatus a p st md w =
    (Some true,
     mkWorld (<[a := mkPumpRow (default p (pump_id <$> pump_status w !! a)) st md
                               (clock w)]> (pump_status w))
             (crop_settings w) (clients w) (sockets w) (sent w)
             (journal w ++ [(UpsertPump a, true)]) (clock w) (drop 1 (faults w))).
Proof. intros Hav. exec_handler w; done. Qed.

Lemma broadcastPumpStatus_answered a row w :
  available 1 w →
  pump_status w !! a = Some row →
  broadcastPumpStatus a w =
    (Some tt,
     mkWorld (pump_status w) (crop_settings w) (clients w) (sockets w)
             (sent w ++ match clients w !! a with
                        | Some ws =>
                            if is_open w ws
                            then [(ws, pump_status_update (Some a) row)]
                            else []
                        | None => []
                        end)
             (journal w ++ [(SelectPump (Some a), true)]) (clock w)
             (drop 1 (faults w))).
Proof.
  intros Hav Hrow. unfold is_open. exec_handler w.
  all: unfold set_sent, set_journal, set_pump_status, set_faults; simpl.
  all: rewrite ?app_nil_r; done.
Qed.

Lemma available_tail n w w' :
  faults w' = drop 1 (faults w) → available (S n) w → available n w'.
Proof.
  unfold available. intros ->. destruct (faults w) as [|f fs]; simpl.
  - by rewrite take_nil.
  - intros H. by apply andb_prop in H as [_ H].
Qed.

Lemma apply_command_answered (c : OperatorCommand) (w : World) :
  passes_guard c →
  available 2 w →
  apply_command c w =
    mkWorld (<[command_area c := command_row c w]> (pump_status w))
            (crop_settings w) (clients w) (sockets w)
            (sent w ++ command_frames c w)
            (journal w ++ [(UpsertPump (command_area c), true);
                           (SelectPump (Some (command_area c)), true)])
            (clock w) (drop 2 (faults w)).
Proof.
  intros Hguard Hav.
  assert (Hav1 : available 1 w) by (apply (available_le 2 1 w); [lia | done]).
  unfold command_frames.
  destruct c as [ws a p st md|a st md]; simpl in *.
  - unfold on_message, exec, try_catch, bind.
    rewrite (updatePumpStatus_answered a p st md w Hav1).
    erewrite broadcastPumpStatus_answered;
      [| by eapply available_tail | simpl; apply lookup_insert_eq ].
    simpl. rewrite <- app_assoc, drop_drop. done.
  - unfold post_pump. destruct md as [|ch md]; [done|].
    cbn [body_status body_mode bool_decide decide_rel orb negb truthy].
    replace (bool_decide (Some st = None)) with false by done.
    cbn [orb negb default from_option].
    unfold exec, try_catch, bind.
    rewrite (updatePumpStatus_answered a _ st _ w Hav1).
    erewrite broadcastPumpStatus_answered;
      [| by eapply available_tail | simpl; apply lookup_insert_eq ].
    simpl. rewrite <- app_assoc, drop_drop. done.
Qed.

Lemma available_drop n m w :
  available (n + m) w → available m (set_faults (drop n (faults w)) w).
Proof.
  unfold available. simpl. generalize (faults w). clear w.
  induction n as [|n IH]; intros fs H; [done|].
  destruct fs as [|f fs]; [by destruct m|].
  simpl in *. apply andb_prop in H as [_ H]. by apply IH.
Qed.

(** C9, as the code has it.  When the store answers every query of the two
    applications (four of them), a command applied twice in succession
    leaves pump id, status and mode of every row as they were after the
    first application, and the frames of the second broadcast go to the same
    session with the same area, pump id, status and mode as those of the
    first.  [last_updated] is not kept: the row, and every frame broadcast,
    carries the time of the first application after the first and the time
    of the second after the second. *)
Theorem repeated_command_same_but_time (c : OperatorCommand) (w : World) (d : nat) :
  passes_guard c →
  available 4 w →
  let w1 := apply_command c w in
  let w1' := step (Tick d) w1 in
  let w2 := apply_command c w1' in
  (∀ k, timeless <$> pump_status w2 !! k = timeless <$> pump_status w1 !! k)
  ∧ last_updated <$> pump_status w1 !! command_area c = Some (clock w)
  ∧ last_updated <$> pump_status w2 !! command_area c = Some (clock w + Z.of_nat d)
  ∧ frame_content <$> pushed w1' w2 = frame_content <$> pushed w w1
  ∧ Forall (λ f, frame_time f = Some (clock w)) (pushed w w1)
  ∧ Forall (λ f, frame_time f = Some (clock w + Z.of_nat d)) (pushed w1' w2).
Proof.
  intros Hguard Hav w1 w1' w2.
  assert (H1 := apply_command_answered c w Hguard (available_le 4 2 w ltac:(lia) Hav)).
  fold w1 in H1.
  assert (Hav' : available 2 w1').
  { subst w1'. rewrite H1. apply (available_drop 2 2 w Hav). }
  assert (H2 := apply_command_answered c w1' Hguard Hav'). fold w2 in H2.
  assert (Hrow : timeless (command_row c w1') = timeless (command_row c w)).
  { subst w1'. rewrite H1. destruct c; simpl; by rewrite lookup_insert_eq. }
  split; [|split; [|split; [|split; [|split]]]].
  - intros k. rewrite H2. subst w1'. simpl. rewrite H1. simpl.
    destruct (decide (command_area c = k)) as [<-|Hne].
    + rewrite !lookup_insert_eq. simpl. f_equal.
      rewrite <- Hrow. by rewrite H1.
    + by rewrite !lookup_insert_ne.
  - rewrite H1. simpl. rewrite lookup_insert_eq. by destruct c.
  - rewrite H2. simpl. rewrite lookup_insert_eq. subst w1'. rewrite H1.
    by destruct c.
  - unfold pushed. rewrite H2. simpl. rewrite drop_app_length.
    rewrite H1 at 1. simpl. rewrite drop_app_length.
    unfold command_frames. subst w1'. unfold is_open. simpl. rewrite H1. simpl.
    destruct (clients w !! command_area c) as [ws|]; [|done].
    case_bool_decide; [|done].
    simpl. unfold frame_content. simpl. rewrite <- Hrow. by rewrite H1.
  - unfold pushed. rewrite H1. simpl. rewrite drop_app_length.
    unfold command_frames.
    destruct (clients w !! command_area c) as [ws|]; [|done].
    destruct (is_open w ws); [|done].
    constructor; [|done]. by destruct c.
  - unfold pushed. rewrite H2. simpl. rewrite drop_app_length.
    unfold command_frames.
    destruct (clients w1' !! command_area c) as [ws|]; [|done].
    destruct (is_open w1' ws); [|done].
    constructor; [|done]. subst w1'. rewrite H1. by destruct c.
Qed.

Lemma repeated_command_same_but_time_witness :
  let c := by_post "field1" true "manual" in
  let w1 := apply_command c auto_world in
  let w1' := step (Tick 5) w1 in
  let w2 := apply_command c w1' in
  (∀ k, timeless <$> pump_status w2 !! k = timeless <$> pump_status w1 !! k)
  ∧ last_updated <$> pump_status w1 !! "field1"%string = Some 100
  ∧ last_updated <$> pump_status w2 !! "field1"%string = Some 105
  ∧ frame_content <$> pushed w1' w2 = frame_content <$> pushed auto_world w1
  ∧ Forall (λ f, frame_time f = Some 100) (pushed auto_world w1)
  ∧ Forall (λ f, frame_time f = Some 105) (pushed w1' w2).
Proof.
  apply (repeated_command_same_but_time (by_post "field1" true "manual") auto_world 5).
  - discriminate.
  - reflexivity.
Defined.

(** C9 as stated fails once time passes between the two applications: the
    second write stamps the row anew, so the persisted row differs from the
    one after the first application, and so does the frame broadcast. *)
Lemma repeated_command_refreshes_timestamp :
  let c := by_post "field1" true "manual" in
  let w1 := apply_command c auto_world in
  let w1' := step (Tick 5) w1 in
  let w2 := apply_command c w1' in
  pump_status w1 !! "field1"%string = Some (mkPumpRow "pump_field1" true "manual" 100)
  ∧ pump_status w2 !! "field1"%string = Some (mkPumpRow "pump_field1" true "manual" 105)
  ∧ pump_status w2 ≠ pump_status w1
  ∧ pushed auto_world w1 =
      [(1%nat, pump_status_update (Some "field1"%string)
                 (mkPumpRow "pump_field1" true "manual" 100))]
  ∧ pushed w1' w2 =
      [(1%nat, pump_status_update (Some "field1"%string)
                 (mkPumpRow "pump_field1" true "manual" 105))]
  ∧ pushed w1' w2 ≠ pushed auto_world w1.
Proof.
  intros c w1 w1' w2.
  assert (H1 : pump_status w1 !! "field1"%string
               = Some (mkPumpRow "pump_field1" true "manual" 100))
    by (vm_compute; reflexivity).
  assert (H2 : pump_status w2 !! "field1"%string
               = Some (mkPumpRow "pump_field1" true "manual" 105))
    by (vm_compute; reflexivity).
  assert (P1 : pushed auto_world w1 =
      [(1%nat, pump_status_update (Some "field1"%string)
                 (mkPumpRow "pump_field1" true "manual" 100))])
    by (vm_compute; reflexivity).
  assert (P2 : pushed w1' w2 =
      [(1%nat, pump_status_update (Some "field1"%string)
                 (mkPumpRow "pump_field1" true "manual" 105))])
    by (vm_compute; reflexivity).
  repeat split; try assumption.
  - intros Heq. rewrite Heq, H1 in H2. discriminate.
  - rewrite P1, P2. discriminate.
Qed.

(* ------------------------------------------------------------------ *)
(** ** Moisture targets for the device *)

(** X1.  A [request_optimal_moisture] is always answered with exactly one
    frame, on the requesting socket, and never touches the table.  The frame
    is the success frame exactly when the store answers and the area has
    crop settings, and then it carries the stored crop, its optimum and the
    optimum plus ten; a store failure and missing settings each have their
    own error frame. *)
Theorem optimal_moisture_request_answered (w : World) (a : string) (ws : nat) :
  let w' := exec (sendOptimalMoisture a ws) w in
  ∃ p,
    sent w' = sent w ++ [(ws, p)]
    ∧ pump_status w' = pump_status w
    ∧ writes (journal w') = writes (journal w)
    ∧ (∀ cn m t, p = optimal_moisture_success cn m t ↔
         available 1 w ∧ crop_settings w !! a = Some (mkCropRow cn m) ∧ t = m + 10)
    ∧ (p = optimal_moisture_error "No crop settings found" ↔
         available 1 w ∧ crop_settings w !! a = None)
    ∧ (p = optimal_moisture_error "Database error" ↔ ¬ available 1 w).
Proof.
  exec_handler w.
  all: try match goal with c : CropRow |- _ => destruct c end.
  all: eexists; split; [reflexivity|].
  all: rewrite ?writes_select by done.
  all: repeat split; intros; destruct_and?; simplify_eq/=; done.
Qed.

(* ------------------------------------------------------------------ *)
(** ** The REST endpoints *)

Ltac crush_props :=
  repeat match goal with
  | H : ∃ _, _ |- _ => destruct H
  | H : _ ∧ _ |- _ => destruct H
  | |- ¬ _ => intros ?
  | |- _ ∧ _ => split
  | |- _ ↔ _ => split; intros
  end;
  simplify_eq/=; try done; try (by eauto 10);
  try match goal with H : ¬ _ |- _ => exfalso; apply H; by eauto 10 end.

Ltac broadcast_effect_tac :=
  first
    [ by left
    | right; do 2 eexists; split; [reflexivity|];
      rewrite ?lookup_insert_eq;
      split; [done|]; split; [by apply bool_decide_eq_true | done] ].

Lemma available_faults n w w' : faults w' = faults w → available n w → available n w'.
Proof. unfold available. by intros ->. Qed.

Lemma get_pump_answered a w :
  available 1 w →
  result (get_pump a) w =
    Some (match pump_status w !! a with
          | Some row => mkResponse 200 (body_row a row)
          | None => mkResponse 404 (body_error "No pump found for this area")
          end).
Proof. intros Hav. exec_handler w; done. Qed.

(** X2.  [GET /api/pumps/:area_name] always answers, reads only, and tells
    the three situations apart: 200 with the stored row exactly when the
    store answers and the area has a row, 404 exactly when the store answers
    and there is no row (no default is synthesized on this path), 500
    exactly when the store fails. *)
Theorem get_pump_answers (w : World) (a : string) :
  let w' := exec (get_pump a) w in
  ∃ resp,
    result (get_pump a) w = Some resp
    ∧ pump_status w' = pump_status w
    ∧ writes (journal w') = writes (journal w)
    ∧ sent w' = sent w
    ∧ (∀ row, resp = mkResponse 200 (body_row a row) ↔
         available 1 w ∧ pump_status w !! a = Some row)
    ∧ (code resp = 200 ↔ available 1 w ∧ is_Some (pump_status w !! a))
    ∧ (code resp = 404 ↔ available 1 w ∧ pump_status w !! a = None)
    ∧ (code resp = 500 ↔ ¬ available 1 w).
Proof.
  exec_handler w.
  all: eexists; split; [reflexivity|].
  all: rewrite ?writes_select by done.
  all: repeat split; intros; destruct_and?; simplify_eq/=; try done.
  all: try (by eexists).
  all: try (by match goal with H : is_Some None |- _ => destruct H end).
Qed.

(** X3.  For a body whose [status], where present, is a boolean and whose
    [mode], where present, is a string, [POST /api/pumps/:area_name] always
    answers with 400, 500 or 200: 400 exactly when the body lacks [status],
    lacks [mode] or has the empty string as [mode]; otherwise 500 exactly
    when the store rejects the upsert and 200 exactly when it accepts it,
    whatever happens to the broadcast afterwards. *)
Theorem post_answer_classified (w : World) (a : string) (b : PostBody) :
  ∃ resp,
    result (post_pump a b) w = Some resp
    ∧ (code resp = 400 ↔ ¬ complete b)
    ∧ (code resp = 500 ↔ complete b ∧ ¬ available 1 w)
    ∧ (code resp = 200 ↔ complete b ∧ available 1 w).
Proof.
  unfold complete. destruct b as [[st|] [[|c md]|]]; simpl.
  2: { exec_handler w.
       all: eexists; split; [reflexivity|]; simpl.
       all: crush_props. }
  all: eexists; split; [reflexivity|]; simpl.
  all: crush_props.
Qed.

(** X4.  A POST is all or nothing on the table: answered 200, it has written
    exactly the row of its area, with the posted status and mode, the time of
    the write and the pump id the row had (the derived one for a new row),
    and the only frame it may have caused is that row, sent to the area's
    registered open session; answered otherwise, it has changed no row and
    sent no frame. *)
Theorem post_all_or_nothing (w : World) (a : string) (b : PostBody) :
  let w' := exec (post_pump a b) w in
  ∃ resp,
    result (post_pump a b) w = Some resp
    ∧ (code resp = 200 →
         ∃ st md,
           body_status b = Some st ∧ body_mode b = Some md
           ∧ pump_status w' =
               <[a := mkPumpRow (default (derived_pump_id a)
                                   (pump_id <$> pump_status w !! a))
                                st md (clock w)]> (pump_status w)
           ∧ broadcast_effect a w w')
    ∧ (code resp ≠ 200 → pump_status w' = pump_status w ∧ sent w' = sent w).
Proof.
  unfold broadcast_effect.
  destruct b as [[st|] [[|c md]|]]; simpl.
  2: { exec_handler w.
       all: eexists; split; [reflexivity|]; simpl.
       all: split; [intros Hc; try discriminate | intros Hc; try done].
       all: exists st, (String c md); split; [done|]; split; [done|].
       all: split; [done|].
       all: broadcast_effect_tac. }
  all: eexists; split; [reflexivity|]; simpl.
  all: split; [intros Hc; discriminate | done].
Qed.

(** X5.  Read your writes: once a command has been applied with the store
    answering, [GET /api/pumps/:area_name] for its area is answered 200 with
    the row the command wrote. *)
Theorem command_then_get_reads_write (c : OperatorCommand) (w : World) :
  passes_guard c →
  available 3 w →
  result (get_pump (command_area c)) (apply_command c w) =
    Some (mkResponse 200 (body_row (command_area c) (command_row c w))).
Proof.
  intros Hguard Hav.
  rewrite (apply_command_answered c w Hguard (available_le 3 2 w ltac:(lia) Hav)).
  rewrite get_pump_answered.
  - simpl. by rewrite lookup_insert_eq.
  - eapply available_faults; [|exact (available_drop 2 1 w Hav)]. done.
Qed.

Lemma command_then_get_reads_write_witness :
  result (get_pump "field1")
         (apply_command (by_socket 1 "field1" "pump_field1" true "manual") auto_world)
    = Some (mkResponse 200 (body_row "field1" (mkPumpRow "pump_field1" true "manual" 100))).
Proof.
  apply (command_then_get_reads_write
           (by_socket 1 "field1" "pump_field1" true "manual") auto_world).
  - exact I.
  - reflexivity.
Defined.

(** X6.  Delivery is best effort: when the store accepts the upsert of a
    POST and rejects the read of the broadcast that follows, the command is
    still answered 200 and persisted, and no frame is sent. *)
Theorem post_survives_failed_broadcast (w : World) (a : string) (st : bool)
    (md : string) (fs : list bool) :
  md ≠ ""%string →
  faults w = false :: true :: fs →
  let b := mkPostBody (Some st) (Some md) in
  let w' := exec (post_pump a b) w in
  code <$> result (post_pump a b) w = Some 200
  ∧ (∃ row, pump_status w' !! a = Some row ∧ status row = st ∧ mode row = md)
  ∧ sent w' = sent w.
Proof.
  intros Hmd Hf. destruct md as [|c md]; [done|]. simpl.
  unfold_handlers. destruct w as [ps cs cl so se jo ck fs0]; simpl in *.
  subst fs0. repeat (simpl in *; exec_step); simpl.
  all: split; [done|]; split; [|done]; eexists; split; [reflexivity|done].
Qed.

Lemma post_survives_failed_broadcast_witness :
  let w := set_faults [false; true] auto_world in
  let b := mkPostBody (Some true) (Some "manual"%string) in
  let w' := exec (post_pump "field1" b) w in
  code <$> result (post_pump "field1" b) w = Some 200
  ∧ (∃ row, pump_status w' !! "field1"%string = Some row
            ∧ status row = true ∧ mode row = "manual"%string)
  ∧ sent w' = sent w.
Proof.
  apply (post_survives_failed_broadcast (set_faults [false; true] auto_world)
           "field1" true "manual" []).
  - discriminate.
  - reflexivity.
Defined.

(* ------------------------------------------------------------------ *)
(** ** More on sensor readings *)

(** X7.  A reading for an area without crop settings is dropped after the
    one SELECT on [crop_settings]: the pump row is neither read nor created,
    nothing is written and nothing is sent. *)
Theorem reading_without_crop_settings_dropped (w : World) (a : string) (r : Z) :
  crop_settings w !! a = None →
  let w' := exec (handleSoilMoistureUpdate a r) w in
  (∃ ok, journal w' = journal w ++ [(SelectCrop a, ok)])
  ∧ pump_status w' = pump_status w
  ∧ sent w' = sent w.
Proof.
  intros Hcrop. exec_handler w.
  all: split; [by eexists | done].
Qed.

Lemma reading_without_crop_settings_dropped_witness :
  let w' := exec (handleSoilMoistureUpdate "field2" 10) auto_world in
  (∃ ok, journal w' = journal auto_world ++ [(SelectCrop "field2", ok)])
  ∧ pump_status w' = pump_status auto_world
  ∧ sent w' = sent auto_world.
Proof.
  apply (reading_without_crop_settings_dropped auto_world "field2" 10).
  reflexivity.
Defined.

(** X8.  The first reading for an area with crop settings and no row, with
    the store answering: the row is inserted off/auto with the derived pump
    id, and upserted to on only if the reading is below the target.  The
    area ends with one row, stamped with the current time; a row created off
    is not broadcast. *)
Theorem first_reading_creates_row (w : World) (a : string) (r : Z) (crop : CropRow) :
  crop_settings w !! a = Some crop →
  pump_status w !! a = None →
  available 4 w →
  let newStatus := bool_decide (r < optimal_moisture crop + 10) in
  let w' := exec (handleSoilMoistureUpdate a r) w in
  pump_status w' =
    <[a := mkPumpRow (derived_pump_id a) newStatus "auto" (clock w)]> (pump_status w)
  ∧ writes (journal w') =
      writes (journal w) ++ (InsertPump a, true)
        :: (if newStatus then [(UpsertPump a, true)] else [])
  ∧ (newStatus = false → sent w' = sent w).
Proof.
  intros Hcrop Hrow Hav. exec_handler w.
  all: rewrite ?insert_insert_eq.
  all: repeat match goal with
       | H : ¬ (_ ≠ _) |- _ => apply dec_stable in H
       | H : bool_decide _ = false |- _ => rewrite H
       | H : bool_decide _ ≠ false |- _ => apply not_false_is_true in H; rewrite H
       end.
  all: rewrite ?writes_select by done.
  all: rewrite ?writes_write by done; rewrite ?writes_select by done.
  all: rewrite ?writes_write by done; rewrite ?writes_select by done.
  all: rewrite <- ?app_assoc; simpl.
  all: repeat split; try done.
Qed.

Lemma first_reading_creates_row_witness :
  let w := boot field1_crops 100 [] in
  let w' := exec (handleSoilMoistureUpdate "field1" 45) w in
  pump_status w' =
    <[ "field1"%string := mkPumpRow "pump_field1" true "auto" 100 ]> (pump_status w)
  ∧ writes (journal w') =
      writes (journal w) ++ [(InsertPump "field1", true); (UpsertPump "field1", true)].
Proof.
  destruct (first_reading_creates_row (boot field1_crops 100 []) "field1" 45
              (mkCropRow "wheat" 40)) as (Ht & Hj & _); try reflexivity.
  split; [exact Ht | exact Hj].
Defined.

Lemma reading_settles (w : World) (a : string) (r : Z) (crop : CropRow) :
  crop_settings w !! a = Some crop →
  (∀ row, pump_status w !! a = Some row → mode row = "auto"%string) →
  available 4 w →
  let w' := exec (handleSoilMoistureUpdate a r) w in
  crop_settings w' = crop_settings w
  ∧ ∃ row', pump_status w' !! a = Some row'
            ∧ mode row' = "auto"%string
            ∧ status row' = bool_decide (r < optimal_moisture crop + 10).
Proof.
  intros Hcrop Hauto Hav. exec_handler w.
  all: try discriminate.
  all: split; [done|]; eexists; split; [reflexivity|]; simpl; split; [by auto|].
  all: repeat match goal with H : ¬ (_ ≠ _) |- _ => apply dec_stable in H end.
  all: try done.
  all: exfalso; match goal with H : _ ≠ _ |- _ => apply H end; by apply Hauto.
Qed.

Lemma settled_reading_skipped (w : World) (a : string) (r : Z)
    (crop : CropRow) (row : PumpRow) :
  crop_settings w !! a = Some crop →
  pump_status w !! a = Some row →
  status row = bool_decide (r < optimal_moisture crop + 10) →
  let w' := exec (handleSoilMoistureUpdate a r) w in
  writes (journal w') = writes (journal w)
  ∧ pump_status w' = pump_status w
  ∧ sent w' = sent w.
Proof.
  intros Hcrop Hrow Hst. exec_handler w.
  all: rewrite ?writes_select by done; try done.
  all: exfalso; congruence.
Qed.

(** X9.  Readings on the same side of the target are absorbed: after a
    reading has been processed in auto mode with the store answering, a
    further reading that calls for the same pump status issues no write,
    changes no row and sends no frame, whatever the store does then. *)
Theorem same_side_reading_absorbed (w : World) (a : string) (r1 r2 : Z)
    (crop : CropRow) :
  crop_settings w !! a = Some crop →
  (∀ row, pump_status w !! a = Some row → mode row = "auto"%string) →
  available 4 w →
  bool_decide (r2 < optimal_moisture crop + 10)
    = bool_decide (r1 < optimal_moisture crop + 10) →
  let w1 := exec (handleSoilMoistureUpdate a r1) w in
  let w2 := exec (handleSoilMoistureUpdate a r2) w1 in
  writes (journal w2) = writes (journal w1)
  ∧ pump_status w2 = pump_status w1
  ∧ sent w2 = sent w1.
Proof.
  intros Hcrop Hauto Hav Hside w1 w2.
  destruct (reading_settles w a r1 crop Hcrop Hauto Hav)
    as (Hcs & row1 & Hrow1 & _ & Hst1).
  fold w1 in Hcs, Hrow1.
  apply (settled_reading_skipped w1 a r2 crop row1); [by rewrite Hcs | done |].
  by rewrite Hst1.
Qed.

Lemma same_side_reading_absorbed_witness :
  let w1 := exec (handleSoilMoistureUpdate "field1" 45) auto_world in
  let w2 := exec (handleSoilMoistureUpdate "field1" 30) w1 in
  writes (journal w2) = writes (journal w1)
  ∧ pump_status w2 = pump_status w1
  ∧ sent w2 = sent w1.
Proof.
  apply (same_side_reading_absorbed auto_world "field1" 45 30 (mkCropRow "wheat" 40)).
  - reflexivity.
  - intros row Hrow. vm_compute in Hrow. injection Hrow as <-. reflexivity.
  - reflexivity.
  - reflexivity.
Defined.

(* ------------------------------------------------------------------ *)
(** ** What a handler leaves alone, and what it sends *)

Lemma handleSoilMoistureUpdate_frames a r w :
  let w' := exec (handleSoilMoistureUpdate a r) w in
  surroundings w' = surroundings w ∧ broadcast_effect a w w'.
Proof.
  unfold surroundings, broadcast_effect. exec_handler w.
  all: split; [done|]; broadcast_effect_tac.
Qed.

Lemma on_message_frames ws data w :
  let w' := exec (on_message ws data) w in
  surroundings w' = surroundings w
  ∧ match data with
    | pump_control a _ _ _ | soil_moisture_update a _ => broadcast_effect a w w'
    | request_optimal_moisture _ => ∃ p, sent w' = sent w ++ [(ws, p)]
    | unknown_frame => sent w' = sent w
    end.
Proof.
  unfold surroundings, broadcast_effect.
  destruct data as [a p st md|a r|a|].
  - exec_handler w. all: split; [done|]; broadcast_effect_tac.
  - exec_handler w. all: split; [done|]; broadcast_effect_tac.
  - exec_handler w. all: split; [done|]; by eexists.
  - done.
Qed.

Lemma post_pump_frames a b w :
  let w' := exec (post_pump a b) w in
  surroundings w' = surroundings w ∧ broadcast_effect a w w'.
Proof.
  unfold surroundings, broadcast_effect, post_pump.
  destruct (bool_decide (body_status b = None) || negb (truthy (body_mode b)));
    [by split; [|left]|].
  exec_handler w.
  all: split; [done|]; broadcast_effect_tac.
Qed.

Lemma get_pump_frames a w :
  let w' := exec (get_pump a) w in
  surroundings w' = surroundings w ∧ sent w' = sent w.
Proof. unfold surroundings. exec_handler w; done. Qed.

Lemma sendPumpStatus_frames a ws w :
  let w' := exec (sendPumpStatus a ws) w in
  surroundings w' = surroundings w
  ∧ (sent w' = sent w ∨ ∃ p, sent w' = sent w ++ [(ws, p)]).
Proof.
  unfold surroundings. destruct a; exec_handler w.
  all: split; [done|]; first [by left | right; by eexists].
Qed.

Lemma on_connection_frames ws url w :
  let w' := exec (on_connection ws url) w in
  crop_settings w' = crop_settings w
  ∧ sockets w' = sockets w
  ∧ clock w' = clock w
  ∧ clients w' = (if truthy (area_of_url url)
                  then <[default ""%string (area_of_url url) := ws]> (clients w)
                  else clients w)
  ∧ (sent w' = sent w ∨ ∃ p, sent w' = sent w ++ [(ws, p)]).
Proof.
  unfold on_connection, exec, bind.
  destruct (area_of_url url) as [a|] eqn:Ha.
  - destruct (truthy (Some a)) eqn:Ht; simpl.
    + pose proof (sendPumpStatus_frames (Some a) ws
                    (set_clients (<[a:=ws]> (clients w)) w)) as [Hs Hf].
      unfold surroundings, exec in *. simpl in *.
      injection Hs as Hcs Hcl Hso Hck. done.
    + pose proof (sendPumpStatus_frames (Some a) ws w) as [Hs Hf].
      unfold surroundings, exec in *. simpl in *.
      injection Hs as Hcs Hcl Hso Hck. done.
  - simpl. pose proof (sendPumpStatus_frames None ws w) as [Hs Hf].
    unfold surroundings, exec in *. simpl in *.
    injection Hs as Hcs Hcl Hso Hck. done.
Qed.

Lemma surroundings_inv w w' :
  surroundings w' = surroundings w →
  crop_settings w' = crop_settings w ∧ clients w' = clients w
  ∧ sockets w' = sockets w ∧ clock w' = clock w.
Proof. unfold surroundings. intros H. by injection H. Qed.

(** X10.  Every frame caused by a sensor reading, a [pump_control] frame or
    a POST is a broadcast of committed state: at most one frame per event,
    addressed to the session registered for the event's area, which is
    open, and carrying that area's row as the table has it after the
    event. *)
Theorem broadcast_is_committed_row (e : Event) (a : string) (w : World) :
  event_area e = Some a →
  broadcast_effect a w (step e w).
Proof.
  intros He. destruct e as [ws url|ws data|ws|a0 b|a0|d|plan]; try discriminate.
  - simpl. destruct (is_open w ws); [|by left].
    pose proof (on_message_frames ws data w) as [_ H].
    destruct data; simpl in He; by simplify_eq.
  - simpl in *. simplify_eq. apply post_pump_frames.
Qed.

Lemma broadcast_is_committed_row_witness :
  broadcast_effect "field1" auto_world
    (step (Message 1 (soil_moisture_update "field1" 45)) auto_world).
Proof.
  apply (broadcast_is_committed_row
           (Message 1 (soil_moisture_update "field1" 45)) "field1" auto_world).
  reflexivity.
Defined.

Lemma step_surroundings e w :
  crop_settings (step e w) = crop_settings w
  ∧ (is_session_event e = false →
     clients (step e w) = clients w ∧ sockets (step e w) = sockets w).
Proof.
  destruct e as [ws url|ws data|ws|a b|a|d|plan]; simpl.
  - split; [|done]. destruct (sockets w !! ws); [done|].
    by destruct (on_connection_frames ws url
                   (set_sockets (<[ws:=mkSocket (area_of_url url) 1]> (sockets w)) w))
      as (-> & _).
  - destruct (is_open w ws); [|done].
    destruct (on_message_frames ws data w) as [Hs _].
    apply surroundings_inv in Hs as (? & ? & ? & ?). done.
  - split; [|done]. destruct (sockets w !! ws) as [sock|]; [|done].
    case_bool_decide; [|done]. unfold on_close, exec.
    destruct (sock_area sock) as [a|]; [destruct (truthy (Some a))|]; done.
  - destruct (post_pump_frames a b w) as [Hs _].
    apply surroundings_inv in Hs as (? & ? & ? & ?). done.
  - destruct (get_pump_frames a w) as [Hs _].
    apply surroundings_inv in Hs as (? & ? & ? & ?). done.
  - done.
  - done.
Qed.

(** X11.  The server only reads [crop_settings]: no run of events, whatever
    the frames, requests and store failures in it, changes a crop setting. *)
Theorem crop_settings_read_only (es : list Event) (w : World) :
  crop_settings (run es w) = crop_settings w.
Proof.
  revert w; induction es as [|e es IH]; intros w; [done|].
  rewrite run_cons, IH. apply step_surroundings.
Qed.

(** X12.  Only connections and closes touch the registry: a frame, a REST
    request, the passing of time or a store outage leaves the registered
    sessions and the state of every socket as they are. *)
Theorem registry_changed_by_sessions_only (e : Event) (w : World) :
  is_session_event e = false →
  clients (step e w) = clients w ∧ sockets (step e w) = sockets w.
Proof. apply step_surroundings. Qed.

Lemma registry_changed_by_sessions_only_witness :
  let e := Message 1 (pump_control "field1" "pump_field1" true "manual") in
  clients (step e auto_world) = clients auto_world
  ∧ sockets (step e auto_world) = sockets auto_world.
Proof.
  apply (registry_changed_by_sessions_only
           (Message 1 (pump_control "field1" "pump_field1" true "manual")) auto_world).
  reflexivity.
Defined.

(* ------------------------------------------------------------------ *)
(** ** The registry across a run *)

Lemma step_registry_by_area e w : registry_by_area w → registry_by_area (step e w).
Proof.
  intros Hinv.
  destruct (is_session_event e) eqn:He.
  - destruct e as [ws url|ws data|ws|a b|a|d|plan]; try discriminate; simpl.
    + destruct (sockets w !! ws) as [sock|] eqn:Hws; [done|].
      destruct (on_connection_frames ws url
                  (set_sockets (<[ws:=mkSocket (area_of_url url) 1]> (sockets w)) w))
        as (_ & Hso & _ & Hcl & _).
      intros a ws' Ha. rewrite Hso. rewrite Hcl in Ha. simpl in *.
      assert (Hold : clients w !! a = Some ws' →
                a ≠ ""%string
                ∧ sock_area <$> <[ws:=mkSocket (area_of_url url) 1]> (sockets w) !! ws'
                  = Some (Some a)).
      { intros Ha'. destruct (Hinv a ws' Ha') as [Hne Hsock]. split; [done|].
        rewrite lookup_insert_ne; [done|]. intros <-. by rewrite Hws in Hsock. }
      destruct (area_of_url url) as [[|ch a0]|] eqn:Hurl; simpl in Ha;
        [by apply Hold| |by apply Hold].
      destruct (decide (String ch a0 = a)) as [<-|Hne].
      * rewrite lookup_insert_eq in Ha. injection Ha as <-.
        by rewrite lookup_insert_eq.
      * rewrite lookup_insert_ne in Ha by done. by apply Hold.
    + destruct (sockets w !! ws) as [sock|] eqn:Hws; [|done].
      case_bool_decide as Hopen; [|done].
      intros a ws' Ha.
      assert (Ha0 : clients w !! a = Some ws').
      { unfold on_close, exec in Ha.
        destruct (sock_area sock) as [[|ch a0]|]; simpl in Ha; try done.
        destruct (decide (String ch a0 = a)) as [<-|Hne].
        - by rewrite lookup_delete_eq in Ha.
        - by rewrite lookup_delete_ne in Ha. }
      destruct (Hinv a ws' Ha0) as [Hne Hsock]. split; [done|].
      assert (Hso : sockets (exec (on_close (sock_area sock))
                (set_sockets (<[ws:=mkSocket (sock_area sock) 3]> (sockets w)) w))
              = <[ws:=mkSocket (sock_area sock) 3]> (sockets w)).
      { unfold on_close, exec.
        destruct (sock_area sock) as [a1|]; [destruct (truthy (Some a1))|]; done. }
      rewrite Hso. destruct (decide (ws = ws')) as [<-|Hne'].
      * rewrite lookup_insert_eq. rewrite Hws in Hsock. done.
      * by rewrite lookup_insert_ne.
  - destruct (step_surroundings e w) as [_ H]. destruct (H He) as [Hcl Hso].
    intros a ws' Ha. rewrite Hso. rewrite Hcl in Ha. by apply Hinv.
Qed.

(** X13.  In every state the server reaches from start-up, each registered
    session is a socket that connected for exactly the area it is registered
    under, and no session is registered under the empty name. *)
Theorem registry_keyed_by_connection_area (es : list Event)
    (crops : gmap string CropRow) (now : Z) (plan : list bool) :
  registry_by_area (run es (boot crops now plan)).
Proof.
  assert (H : ∀ w, registry_by_area w → registry_by_area (run es w)).
  { induction es as [|e es IH]; intros w Hw; [done|].
    rewrite run_cons. apply IH. by apply step_registry_by_area. }
  apply H. intros a ws Ha. simpl in Ha. by rewrite lookup_empty in Ha.
Qed.

(** X14.  Frames are only appended, and only for open sockets: whatever an
    event sends goes to sockets that are open once the event is handled. *)
Theorem frames_go_to_open_sockets (e : Event) (w : World) :
  ∃ fs, sent (step e w) = sent w ++ fs
        ∧ Forall (λ f, is_open (step e w) f.1 = true) fs.
Proof.
  assert (Hb : ∀ a w', broadcast_effect a w w' → sockets w' = sockets w →
            ∃ fs, sent w' = sent w ++ fs ∧ Forall (λ f, is_open w' f.1 = true) fs).
  { intros a w' [Hs|(ws & row & Hs & _ & Hopen & _)] Hso.
    - exists []. by rewrite app_nil_r.
    - eexists. split; [exact Hs|]. constructor; [|done].
      unfold is_open in *. by rewrite Hso. }
  assert (Hnil : ∀ w', sent w' = sent w →
            ∃ fs, sent w' = sent w ++ fs ∧ Forall (λ f, is_open w' f.1 = true) fs).
  { intros w' Hs. exists []. by rewrite app_nil_r. }
  destruct e as [ws url|ws data|ws|a b|a|d|plan]; simpl.
  - destruct (sockets w !! ws) as [sock|] eqn:Hws; [by apply Hnil|].
    destruct (on_connection_frames ws url
                (set_sockets (<[ws:=mkSocket (area_of_url url) 1]> (sockets w)) w))
      as (_ & Hso & _ & _ & [Hs|[p Hs]]); [by apply Hnil|].
    eexists. split; [exact Hs|]. constructor; [|done].
    unfold is_open. rewrite Hso. simpl. by rewrite lookup_insert_eq.
  - destruct (is_open w ws) eqn:Hopen; [|by apply Hnil].
    destruct (on_message_frames ws data w) as [Hsur H].
    apply surroundings_inv in Hsur as (_ & _ & Hso & _).
    destruct data as [a p st md|a r|a|].
    + by eapply Hb.
    + by eapply Hb.
    + destruct H as [p Hs]. eexists. split; [exact Hs|]. constructor; [|done].
      unfold is_open in *. by rewrite Hso.
    + by apply Hnil.
  - destruct (sockets w !! ws) as [sock|]; [|by apply Hnil].
    case_bool_decide; [|by apply Hnil]. apply Hnil.
    unfold on_close, exec.
    destruct (sock_area sock) as [a|]; [destruct (truthy (Some a))|]; done.
  - destruct (post_pump_frames a b w) as [Hsur H].
    apply surroundings_inv in Hsur as (_ & _ & Hso & _). by eapply Hb.
  - destruct (get_pump_frames a w) as [_ Hs]. by apply Hnil.
  - exists []. by rewrite app_nil_r.
  - exists []. by rewrite app_nil_r.
Qed.

(* ------------------------------------------------------------------ *)
(** ** Areas are independent *)

Lemma table_step_other a p t t' k :
  table_step a p t t' → k ≠ a → t' !! k = t !! k.
Proof.
  intros [->|(st & md & ts & ->)] Hne; [done|]. by rewrite lookup_insert_ne.
Qed.

Lemma step_table_at e w :
  match event_area e with
  | Some a => ∃ p, table_step a p (pump_status w) (pump_status (step e w))
  | None => pump_status (step e w) = pump_status w
  end.
Proof.
  destruct e as [ws url|ws data|ws|a b|a|d|plan]; simpl.
  - destruct (sockets w !! ws); [done|].
    unfold on_connection, exec, bind.
    destruct (area_of_url url) as [a|]; [destruct (truthy (Some a))|]; simpl;
      match goal with |- context [sendPumpStatus ?x ?y ?z] =>
        apply (sendPumpStatus_table x y z) end.
  - pose proof (on_message_table ws data w) as H.
    destruct data as [a p st md|a r|a|]; simpl; destruct (is_open w ws);
      try done.
    + by exists p.
    + exists p. by left.
    + by exists (derived_pump_id a).
    + exists (derived_pump_id a). by left.
  - destruct (sockets w !! ws) as [sock|]; [|done].
    case_bool_decide; [|done]. unfold on_close, exec.
    destruct (sock_area sock) as [a|]; [destruct (truthy (Some a))|]; done.
  - exists (derived_pump_id a). apply post_pump_table.
  - apply get_pump_table.
  - done.
  - done.
Qed.

Lemma step_other_area e w k :
  event_area e ≠ Some k →
  pump_status (step e w) !! k = pump_status w !! k.
Proof.
  intros Hk. pose proof (step_table_at e w) as H.
  destruct (event_area e) as [a|].
  - destruct H as [p H]. apply (table_step_other a p); [done | congruence].
  - by rewrite H.
Qed.

(** X15.  Areas do not interfere: an event changes at most the row of the
    area it addresses; the row of every other area, present or absent, is
    exactly as before. *)
Theorem other_areas_untouched (e : Event) (w : World) (k : string) :
  event_area e ≠ Some k →
  pump_status (step e w) !! k = pump_status w !! k.
Proof. apply step_other_area. Qed.

Lemma other_areas_untouched_witness :
  pump_status (step (HttpPost "field2" (mkPostBody (Some true) (Some "manual"%string)))
                    auto_world) !! "field1"%string
    = pump_status auto_world !! "field1"%string.
Proof.
  apply (other_areas_untouched
           (HttpPost "field2" (mkPostBody (Some true) (Some "manual"%string)))
           auto_world "field1").
  discriminate.
Defined.





(* ------------------------------------------------------------------ *)
(** ** Sessions and commands *)

Lemma sendPumpStatus_answered a ws w :
  available 1 w →
  sendPumpStatus (Some a) ws w =
    (Some tt,
     mkWorld (pump_status w) (crop_settings w) (clients w) (sockets w)
             (sent w ++ [(ws, pump_status_update (Some a)
                                (default (default_view a (clock w))
                                         (pump_status w !! a)))])
             (journal w ++ [(SelectPump (Some a), true)]) (clock w)
             (drop 1 (faults w))).
Proof. intros Hav. exec_handler w; done. Qed.

Lemma sendPumpStatus_faults a ws w :
  faults (exec (sendPumpStatus a ws) w) = drop 1 (faults w).
Proof. destruct a; exec_handler w; done. Qed.

Lemma connection_step ws url a w :
  sockets w !! ws = None →
  area_of_url url = Some a →
  a ≠ ""%string →
  let w1 := step (Connection ws url) w in
  clients w1 = <[a := ws]> (clients w)
  ∧ sockets w1 = <[ws := mkSocket (Some a) 1]> (sockets w)
  ∧ faults w1 = drop 1 (faults w).
Proof.
  intros Hnew Harea Ha. simpl. rewrite Hnew, Harea.
  destruct (on_connection_frames ws url
              (set_sockets (<[ws:=mkSocket (Some a) 1]> (sockets w)) w))
    as (_ & Hso & _ & Hcl & _).
  rewrite Harea in Hcl. destruct a as [|ch a]; [done|]. simpl in Hcl.
  split; [done|]. split; [done|].
  unfold on_connection, exec, bind. rewrite Harea. simpl.
  match goal with |- context [sendPumpStatus ?x ?y ?z] =>
    exact (sendPumpStatus_faults x y z) end.
Qed.

(** X17.  The newest session of an area is the one that is served: after a
    connection for an area, whoever was registered for it before, the new
    session is the registered one; with the store answering the status query
    of the connection and the upsert and the broadcast read of a command for
    that area, the command is broadcast as exactly one frame, to the new
    session, carrying the row just written. *)
Theorem newest_session_receives_broadcast (c : OperatorCommand) (w : World)
    (ws : nat) (url : string) :
  sockets w !! ws = None →
  area_of_url url = Some (command_area c) →
  command_area c ≠ ""%string →
  passes_guard c →
  available 3 w →
  let w1 := step (Connection ws url) w in
  let w2 := apply_command c w1 in
  clients w1 !! command_area c = Some ws
  ∧ pushed w1 w2 =
      [(ws, pump_status_update (Some (command_area c)) (command_row c w1))]
  ∧ pump_status w2 !! command_area c = Some (command_row c w1).
Proof.
  intros Hnew Harea Ha Hguard Hav w1 w2.
  destruct (connection_step ws url (command_area c) w Hnew Harea Ha)
    as (Hcl & Hso & Hf).
  fold w1 in Hcl, Hso, Hf.
  assert (Hav1 : available 2 w1) by (by apply (available_tail 2 w w1)).
  subst w2. rewrite (apply_command_answered c w1 Hguard Hav1).
  unfold pushed. simpl. rewrite drop_app_length, lookup_insert_eq.
  unfold command_frames, is_open. rewrite Hcl, Hso, !lookup_insert_eq. simpl.
  done.
Qed.

Lemma newest_session_receives_broadcast_witness :
  let c := by_post "field1" true "manual" in
  let w1 := step (Connection 2 "/?area=field1") auto_world in
  let w2 := apply_command c w1 in
  clients w1 !! command_area c = Some 2%nat
  ∧ pushed w1 w2 =
      [(2%nat, pump_status_update (Some (command_area c)) (command_row c w1))]
  ∧ pump_status w2 !! command_area c = Some (command_row c w1).
Proof.
  apply (newest_session_receives_broadcast (by_post "field1" true "manual")
           auto_world 2 "/?area=field1").
  - reflexivity.
  - reflexivity.
  - discriminate.
  - discriminate.
  - reflexivity.
Defined.

(** X18.  When the session registered for an area closes, the area has no
    session any more; a command for it that the store persists is still
    written, and sends no frame. *)
Theorem closed_session_unregistered (c : OperatorCommand) (w : World) (ws : nat) :
  clients w !! command_area c = Some ws →
  sockets w !! ws = Some (mkSocket (Some (command_area c)) 1) →
  command_area c ≠ ""%string →
  passes_guard c →
  available 2 w →
  let w1 := step (Close ws) w in
  let w2 := apply_command c w1 in
  clients w1 !! command_area c = None
  ∧ is_open w1 ws = false
  ∧ pushed w1 w2 = []
  ∧ pump_status w2 !! command_area c = Some (command_row c w1).
Proof.
  intros Hreg Hsock Ha Hguard Hav w1 w2.
  assert (Hw1 : w1 = set_clients (delete (command_area c) (clients w))
                       (set_sockets (<[ws := mkSocket (Some (command_area c)) 3]>
                                       (sockets w)) w)).
  { subst w1. simpl. rewrite Hsock. simpl.
    try rewrite bool_decide_true by done. unfold on_close, exec.
    destruct (command_area c) as [|ch a]; done. }
  assert (Hav1 : available 2 w1) by (by rewrite Hw1).
  subst w2. rewrite (apply_command_answered c w1 Hguard Hav1).
  unfold pushed. simpl. rewrite drop_app_length, lookup_insert_eq.
  unfold command_frames, is_open. rewrite Hw1. simpl.
  rewrite lookup_delete_eq, lookup_insert_eq. done.
Qed.

Lemma closed_session_unregistered_witness :
  let c := by_post "field1" true "manual" in
  let w1 := step (Close 1) auto_world in
  let w2 := apply_command c w1 in
  clients w1 !! "field1"%string = None
  ∧ is_open w1 1 = false
  ∧ pushed w1 w2 = []
  ∧ pump_status w2 !! "field1"%string
      = Some (mkPumpRow "pump_field1" true "manual" 100).
Proof.
  apply (closed_session_unregistered (by_post "field1" true "manual") auto_world 1).
  - reflexivity.
  - reflexivity.
  - discriminate.
  - discriminate.
  - reflexivity.
Defined.

(** X19.  A viewer that connects after a command sees it: once a command
    has been applied with the store answering, a new connection for its area
    is sent the row the command wrote. *)
Theorem command_then_connection_pushes_write (c : OperatorCommand) (w : World)
    (ws : nat) (url : string) :
  passes_guard c →
  available 3 w →
  sockets w !! ws = None →
  area_of_url url = Some (command_area c) →
  let w1 := apply_command c w in
  pushed w1 (step (Connection ws url) w1) =
    [(ws, pump_status_update (Some (command_area c)) (command_row c w))].
Proof.
  intros Hguard Hav Hnew Harea w1.
  assert (Hw1 := apply_command_answered c w Hguard (available_le 3 2 w ltac:(lia) Hav)).
  fold w1 in Hw1.
  assert (Hso : sockets w1 = sockets w) by (by rewrite Hw1).
  assert (Hrow : pump_status w1 !! command_area c = Some (command_row c w)).
  { rewrite Hw1. simpl. apply lookup_insert_eq. }
  assert (Hck : clock w1 = clock w) by (by rewrite Hw1).
  assert (Hav1 : available 1 w1).
  { rewrite Hw1. apply (available_drop 2 1 w Hav). }
  unfold pushed. simpl. rewrite Hso, Hnew.
  unfold on_connection, exec, bind. rewrite Harea.
  destruct (truthy (Some (command_area c))); simpl.
  all: rewrite sendPumpStatus_answered by done; simpl.
  all: by rewrite drop_app_length, Hrow.
Qed.

Lemma command_then_connection_pushes_write_witness :
  let c := by_socket 1 "field1" "pump_field1" true "manual" in
  let w1 := apply_command c auto_world in
  pushed w1 (step (Connection 2 "/?area=field1") w1) =
    [(2%nat, pump_status_update (Some "field1"%string)
               (mkPumpRow "pump_field1" true "manual" 100))].
Proof.
  apply (command_then_connection_pushes_write
           (by_socket 1 "field1" "pump_field1" true "manual") auto_world 2
           "/?area=field1").
  - exact I.
  - reflexivity.
  - reflexivity.
  - reflexivity.
Defined.

(* ------------------------------------------------------------------ *)
(** ** The area name of a connection URL *)

Lemma string_app_cons c s t : String c s +:+ t = String c (s +:+ t).
Proof. reflexivity. Qed.

Lemma string_app_nil_r s : s +:+ "" = s.
Proof. induction s as [|c s IH]; [done|]. by rewrite string_app_cons, IH. Qed.

Lemma string_app_assoc s t u : (s +:+ t) +:+ u = s +:+ t +:+ u.
Proof. induction s as [|c s IH]; [done|]. by rewrite !string_app_cons, IH. Qed.

Lemma prefix_split sep s :
  String.prefix sep s = true → ∃ rest, s = sep +:+ rest.
Proof.
  revert s; induction sep as [|c sep IH]; intros s H.
  - by exists s.
  - destruct s as [|x s]; [done|]. simpl in H.
    destruct (Ascii.ascii_dec c x) as [->|]; [|done].
    destruct (IH s H) as [rest ->]. by exists rest.
Qed.

Lemma split_go_skip sep u cur rest :
  split_go sep (String.length u) cur (u +:+ rest) = split_go sep 0 cur rest.
Proof.
  induction u as [|c u IH]; [done|]. rewrite string_app_cons. simpl.
  exact IH.
Qed.

Lemma split_go_nonempty sep skip cur s : split_go sep skip cur s ≠ [].
Proof.
  revert skip cur; induction s as [|c s IH]; intros skip cur; [by simpl|].
  cbn [split_go]. destruct skip; [|by apply IH].
  destruct (String.prefix sep (String c s)); [done | by apply IH].
Qed.

Lemma concat_cons sep x l :
  l ≠ [] → String.concat sep (x :: l) = x +:+ sep +:+ String.concat sep l.
Proof. by destruct l. Qed.

Lemma split_go_join (n : nat) (c0 : Ascii.ascii) (sep0 : string) :
  ∀ s cur, (String.length s ≤ n)%nat →
    String.concat (String c0 sep0) (split_go (String c0 sep0) 0 cur s) = cur +:+ s.
Proof.
  induction n as [|n IH]; intros s cur Hlen.
  - destruct s; [|simpl in Hlen; lia]. simpl. by rewrite string_app_nil_r.
  - destruct s as [|c s]; [simpl; by rewrite string_app_nil_r|].
    cbn [split_go].
    destruct (String.prefix (String c0 sep0) (String c s)) eqn:Hp.
    + destruct (prefix_split _ _ Hp) as [rest Hrest].
      rewrite string_app_cons in Hrest. injection Hrest as -> ->.
      replace (String.length (String c0 sep0) - 1)%nat with (String.length sep0)
        by (simpl; lia).
      rewrite split_go_skip, concat_cons by apply split_go_nonempty.
      rewrite IH.
      * reflexivity.
      * simpl in Hlen.
        assert (String.length rest ≤ String.length (sep0 +:+ rest))%nat; [|lia].
        clear. induction sep0 as [|x sep0 IHs]; [done|].
        rewrite string_app_cons. simpl. lia.
    + rewrite IH by (simpl in Hlen; lia).
      by rewrite string_app_assoc.
Qed.

(** X20.  [split] loses nothing: joining the pieces of a string with the
    (non-empty) separator gives the string back, and there is always at
    least one piece. *)
Theorem js_split_join (c0 : Ascii.ascii) (sep0 s : string) :
  String.concat (String c0 sep0) (js_split (String c0 sep0) s) = s
  ∧ js_split (String c0 sep0) s ≠ [].
Proof.
  split; [|apply split_go_nonempty].
  unfold js_split. by rewrite (split_go_join (String.length s)).
Qed.

Lemma split_go_lacks s cur :
  lacks "?"%char s = true → split_go "?area=" 0 cur s = [cur +:+ s].
Proof.
  revert cur; induction s as [|c s IH]; intros cur H.
  - simpl. by rewrite string_app_nil_r.
  - cbn [lacks] in H. cbn [split_go String.prefix].
    destruct (Ascii.ascii_dec "?"%char c); [done|].
    rewrite IH by done. by rewrite string_app_assoc.
Qed.

(** X21.  The area name is what follows [?area=]: for a URL made of a path
    without [?], then [?area=], then a name without [?], the pieces are the
    path and the name, and the connection is for that name, whatever else
    the name contains. *)
Theorem area_of_url_query (path a : string) :
  lacks "?"%char path = true →
  lacks "?"%char a = true →
  js_split "?area=" (path +:+ "?area=" +:+ a) = [path; a]
  ∧ area_of_url (path +:+ "?area=" +:+ a) = Some a.
Proof.
  intros Hp Ha.
  assert (H : ∀ cur, split_go "?area=" 0 cur (path +:+ "?area=" +:+ a)
                     = [cur +:+ path; a]).
  { induction path as [|c path IH]; intros cur.
    - change ("" +:+ "?area=" +:+ a) with ("?area=" +:+ a).
      change ("?area=" +:+ a) with (String "?" ("area=" +:+ a)).
      cbn [split_go]. change (String "?" ("area=" +:+ a)) with ("?area=" +:+ a).
      assert (Hpre : String.prefix "?area=" ("?area=" +:+ a) = true).
      { apply String.prefix_correct. clear.
        change ("?area=" +:+ a) with
          (String "?" (String "a" (String "r" (String "e" (String "a"
             (String "=" a)))))).
        simpl. by destruct a. }
      rewrite Hpre.
      change (String.length "?area=" - 1)%nat with (String.length "area=").
      rewrite split_go_skip, split_go_lacks by done.
      by rewrite string_app_nil_r.
    - rewrite string_app_cons. cbn [lacks] in Hp.
      cbn [split_go String.prefix].
      destruct (Ascii.ascii_dec "?"%char c) as [|Hne]; [done|].
      rewrite IH by done. by rewrite string_app_assoc. }
  unfold area_of_url, js_split. by rewrite H.
Qed.

Lemma area_of_url_query_witness :
  js_split "?area=" ("/ws" +:+ "?area=" +:+ "north field&v=2")
    = ["/ws"; "north field&v=2"]%string
  ∧ area_of_url ("/ws" +:+ "?area=" +:+ "north field&v=2")
    = Some "north field&v=2"%string.
Proof.
  apply (area_of_url_query "/ws" "north field&v=2"); reflexivity.
Defined.

(** X22.  A URL without [?] carries no area: [split] returns the URL as its
    only piece and the connection has no area name. *)
Theorem area_of_url_without_query (url : string) :
  lacks "?"%char url = true →
  js_split "?area=" url = [url] ∧ area_of_url url = None.
Proof.
  intros H. unfold area_of_url, js_split. by rewrite split_go_lacks.
Qed.

Lemma area_of_url_without_query_witness :
  js_split "?area=" "/ws/area=field1" = ["/ws/area=field1"%string]
  ∧ area_of_url "/ws/area=field1" = None.
Proof. apply (area_of_url_without_query "/ws/area=field1"). reflexivity. Defined.

(** X23.  A connection without an area name registers nothing and changes no
    row; when the store answers it is sent the synthesized default, with no
    area name and the pump id [pump_undefined], even if the table has rows. *)
Theorem connection_without_area (w : World) (ws : nat) (url : string) :
  sockets w !! ws = None →
  area_of_url url = None →
  let w1 := step (Connection ws url) w in
  clients w1 = clients w
  ∧ pump_status w1 = pump_status w
  ∧ (available 1 w →
     pushed w w1 =
       [(ws, pump_status_update None
               (mkPumpRow "pump_undefined" false "auto" (clock w)))]).
Proof.
  intros Hnew Harea. unfold pushed. simpl. rewrite Hnew.
  unfold on_connection. rewrite Harea.
  exec_handler w.
  all: rewrite ?drop_app_length; done.
Qed.

Lemma connection_without_area_witness :
  let w1 := step (Connection 2 "/ws") auto_world in
  clients w1 = clients auto_world
  ∧ pump_status w1 = pump_status auto_world
  ∧ pushed auto_world w1 =
      [(2%nat, pump_status_update None
                 (mkPumpRow "pump_undefined" false "auto" 100))].
Proof.
  destruct (connection_without_area auto_world 2 "/ws") as (Hc & Ht & Hp);
    try reflexivity.
  split; [exact Hc|]. split; [exact Ht|]. apply Hp. reflexivity.
Defined.
